(** * remote_pc.py: a shallow embedding of the request guards, the process
    cache, the modifier-key state machine and the volume operation, with the
    properties of each.

    Conventions of the embedding.
    - A [datetime] is a [Z]: microseconds since [datetime.min]; a
      [timedelta] is a [Z] number of microseconds.
    - A Python exception is a value of [exn]; a method that can raise
      returns a [result], and the object state it had reached when it raised
      is returned with it (Python does not roll back).
    - The object [self] is the record [Self].  Two components are added to
      the Python attributes: the heap of [threading.Timer] objects created so
      far, and the trace of the calls made to the host (commands run, timers
      started and cancelled) and of the writes to [active_modifiers].
    - Calls into the host ([subprocess.run], [subprocess.Popen], the process
      enumeration, the audio endpoint) are answered by parameters.
    - Logging and [time.sleep] are not modelled.
    - [str.lower], [str.capitalize] and [str.title] are the ASCII ones. *)

From Stdlib Require Import ZArith Ascii String List.
From stdpp Require Import gmap strings list fin_maps pretty.

Local Open Scope string_scope.

(* set_solver and naive_solver clear hypotheses they may already have used up. *)
#[local] Set Warnings "-clear-no-such-hyp".

(** ** Python values and exceptions *)

Inductive exn :=
| AttributeError (name : string)
| KeyError (key : string)
| TypeError
| HostError (msg : string).

Inductive result (A : Type) :=
| Ok (a : A)
| Raise (e : exn).
Arguments Ok {A} a.
Arguments Raise {A} e.

(** The double quote character, for the command lines. *)
Definition dq : string := String (ascii_of_nat 34) EmptyString.

Definition ascii_is_upper (c : ascii) : bool :=
  (65 <=? nat_of_ascii c)%nat && (nat_of_ascii c <=? 90)%nat.
Definition ascii_is_lower (c : ascii) : bool :=
  (97 <=? nat_of_ascii c)%nat && (nat_of_ascii c <=? 122)%nat.
Definition ascii_lower (c : ascii) : ascii :=
  if ascii_is_upper c then ascii_of_nat (nat_of_ascii c + 32) else c.
Definition ascii_upper (c : ascii) : ascii :=
  if ascii_is_lower c then ascii_of_nat (nat_of_ascii c - 32) else c.

(** [s.lower()] *)
Fixpoint str_lower (s : string) : string :=
  match s with
  | EmptyString => EmptyString
  | String c r => String (ascii_lower c) (str_lower r)
  end.

(** [s.capitalize()] *)
Definition str_capitalize (s : string) : string :=
  match s with
  | EmptyString => EmptyString
  | String c r => String (ascii_upper c) (str_lower r)
  end.

Fixpoint str_title_from (prev_cased : bool) (s : string) : string :=
  match s with
  | EmptyString => EmptyString
  | String c r =>
      if ascii_is_upper c || ascii_is_lower c
      then String (if prev_cased then ascii_lower c else ascii_upper c)
                  (str_title_from true r)
      else String c (str_title_from false r)
  end.

(** [s.title()] *)
Definition str_title (s : string) : string := str_title_from false s.

(** [sep.join(parts)] *)
Definition str_join (sep : string) (parts : list string) : string :=
  String.concat sep parts.

(** [timedelta(seconds=n)] and [timedelta(minutes=n)], in microseconds. *)
Definition timedelta_seconds (n : Z) : Z := (n * 1000000)%Z.
Definition timedelta_minutes (n : Z) : Z := (n * 60000000)%Z.

(** [datetime.min] *)
Definition datetime_min : Z := 0%Z.

(** ** Config *)

(** A value of the configuration file (JSON strings, integers, booleans). *)
Inductive cfgval :=
| CStr (s : string)
| CInt (n : Z)
| CBool (b : bool).

(** [os.path.join] of a directory and a relative name, on Windows. *)
Definition path_join (dir name : string) : string :=
  dir ++ String (ascii_of_nat 92) EmptyString ++ name.

(** [Config.DEFAULTS]; the two device names come from [sounddevice]. *)
Definition DEFAULTS (playback_1 recording_1 : string) : list (string * cfgval) :=
  [ ("USERNAME", CStr "admin");
    ("PASSWORD", CStr "password");
    ("SECRET_KEY", CStr "your-secret-key");
    ("HOST", CStr "0.0.0.0");
    ("PORT", CInt 5000);
    ("DEBUG", CBool false);
    ("LOGGING_ENABLED", CBool true);
    ("SESSION_TIMEOUT_MINUTES", CInt 30);
    ("MAX_REQUESTS_PER_MINUTE", CInt 120);
    ("PLAYBACK_DEVICE_1", CStr playback_1);
    ("PLAYBACK_DEVICE_2", CStr "HeadPhone");
    ("RECORDING_DEVICE_1", CStr recording_1) ].

(** A [Config] object: the class attributes that hold paths, and the
    instance attributes that [__init__] sets with [setattr]. *)
Record Config := mkConfig {
  BASE_DIR : string;
  APP_DATA_DIR : string;
  STATIC_DIR : string;
  CONFIG_FILE : string;
  LOG_FILE : string;
  instance_attrs : gmap string cfgval
}.

(** The class body of [Config] followed by [Config.__init__]:
    [for key, value in self.DEFAULTS.items():
       setattr(self, key, config_data.get(key, value))]. *)
Definition Config_init (base_dir exe_dir : string) (playback_1 recording_1 : string)
    (config_data : gmap string cfgval) : Config :=
  let app_data := path_join exe_dir "static" in
  {| BASE_DIR := base_dir;
     APP_DATA_DIR := app_data;
     STATIC_DIR := path_join base_dir "static";
     CONFIG_FILE := path_join app_data "config.json";
     LOG_FILE := path_join app_data "pc_remote.log";
     instance_attrs :=
       foldl (fun attrs kv => <[kv.1 := default kv.2 (config_data !! kv.1)]> attrs)
             ∅ (DEFAULTS playback_1 recording_1) |}.

(** [self.config.<name>]: instance attributes first, then the class
    attributes; any other name raises [AttributeError].  ([DEFAULTS] and
    [__init__] are class attributes too; they are not configuration values and
    no code reads them through an instance, so reading them is left out.) *)
Definition config_getattr (c : Config) (name : string) : result cfgval :=
  match instance_attrs c !! name with
  | Some v => Ok v
  | None =>
      if bool_decide (name = "BASE_DIR") then Ok (CStr (BASE_DIR c))
      else if bool_decide (name = "APP_DATA_DIR") then Ok (CStr (APP_DATA_DIR c))
      else if bool_decide (name = "STATIC_DIR") then Ok (CStr (STATIC_DIR c))
      else if bool_decide (name = "CONFIG_FILE") then Ok (CStr (CONFIG_FILE c))
      else if bool_decide (name = "LOG_FILE") then Ok (CStr (LOG_FILE c))
      else Raise (AttributeError name)
  end.

(** A configuration value used as an integer operand ([bool] is an [int] in
    Python; a string operand raises [TypeError]). *)
Definition cfg_as_int (v : cfgval) : result Z :=
  match v with
  | CInt n => Ok n
  | CBool b => Ok (if b then 1%Z else 0%Z)
  | CStr _ => Raise TypeError
  end.

(** ** The object state *)

(** An entry of [self.apps].  [exe] and [cmd] are read with [d[...]],
    [process_name] and [closable] with [d.get(..., default)]. *)
Record AppConfig := mkAppConfig {
  exe : string;
  process_name : option string;
  cmd : string;
  closable : option bool
}.

(** A [threading.Timer] after [start()]: waiting, running its callback,
    cancelled while it waited, or finished. *)
Inductive timer_status := Pending | Running | Cancelled | Finished.

Inductive event :=
| EExec (command : string)      (* _execute_command: subprocess.run *)
| EPopen (command : string)     (* subprocess.Popen *)
| ETimerStart (id : nat)        (* threading.Timer(4.1, ...).start() *)
| ETimerCancel (id : nat)       (* Timer.cancel() *)
| ESetAdd (modifier : string)   (* self.active_modifiers.add(modifier) *)
| ESetRemove (modifier : string) (* self.active_modifiers.remove(modifier) *)
| ESetClear.                    (* self.active_modifiers.clear() *)

Record Self := mkSelf {
  config : Config;
  nircmd : string;
  running_apps_cache : gset string;
  last_cache_update : Z;
  cache_ttl : Z;
  app_enabled : bool;
  request_counts : gmap string (list Z);
  modifier_key_timer : option nat;
  active_modifier : option string;
  active_modifiers : gset string;
  apps : gmap string AppConfig;
  timers : list timer_status;
  trace : list event
}.

Definition set_cache (names : gset string) (t : Z) (s : Self) : Self :=
  mkSelf (config s) (nircmd s) names t (cache_ttl s) (app_enabled s)
    (request_counts s) (modifier_key_timer s) (active_modifier s)
    (active_modifiers s) (apps s) (timers s) (trace s).

Definition set_request_counts (rc : gmap string (list Z)) (s : Self) : Self :=
  mkSelf (config s) (nircmd s) (running_apps_cache s) (last_cache_update s)
    (cache_ttl s) (app_enabled s) rc (modifier_key_timer s) (active_modifier s)
    (active_modifiers s) (apps s) (timers s) (trace s).

Definition set_modifier_key_timer (t : option nat) (s : Self) : Self :=
  mkSelf (config s) (nircmd s) (running_apps_cache s) (last_cache_update s)
    (cache_ttl s) (app_enabled s) (request_counts s) t (active_modifier s)
    (active_modifiers s) (apps s) (timers s) (trace s).

Definition set_active_modifiers (ms : gset string) (s : Self) : Self :=
  mkSelf (config s) (nircmd s) (running_apps_cache s) (last_cache_update s)
    (cache_ttl s) (app_enabled s) (request_counts s) (modifier_key_timer s)
    (active_modifier s) ms (apps s) (timers s) (trace s).

Definition set_timers (ts : list timer_status) (s : Self) : Self :=
  mkSelf (config s) (nircmd s) (running_apps_cache s) (last_cache_update s)
    (cache_ttl s) (app_enabled s) (request_counts s) (modifier_key_timer s)
    (active_modifier s) (active_modifiers s) (apps s) ts (trace s).

Definition emit (e : event) (s : Self) : Self :=
  mkSelf (config s) (nircmd s) (running_apps_cache s) (last_cache_update s)
    (cache_ttl s) (app_enabled s) (request_counts s) (modifier_key_timer s)
    (active_modifier s) (active_modifiers s) (apps s) (timers s)
    (trace s ++ [e]).

(** [PCRemoteControl._define_apps]; [home] is [pathlib.Path.home()], and the
    two [pathlib] paths are written as [str] renders them on Windows. *)
Definition _define_apps (home : string) : gmap string AppConfig :=
  list_to_map
    [ ("discord", mkAppConfig "Discord.exe" (Some "discord.exe")
         (dq ++ home ++ "\AppData\Local\Discord\Update.exe" ++ dq
             ++ " --processStart Discord.exe") (Some true));
      ("steam", mkAppConfig "steam.exe" (Some "steam.exe")
         "C:\Program Files (x86)\Steam\Steam.exe" (Some true));
      ("npp", mkAppConfig "notepad++.exe" (Some "notepad++.exe")
         "start notepad++" (Some true));
      ("chrome", mkAppConfig "chrome.exe" (Some "chrome.exe")
         "start chrome" (Some true));
      ("mediaplayer", mkAppConfig "mediaplayer.exe" (Some "mediaplayer.exe")
         "start mediaplayer" (Some true));
      ("task_manager", mkAppConfig "Taskmgr.exe" (Some "taskmgr.exe")
         "taskmgr" (Some false)) ].

(** [PCRemoteControl.__init__] *)
Definition PCRemoteControl_init (cfg : Config) (home : string) : Self :=
  {| config := cfg;
     nircmd := path_join (STATIC_DIR cfg) "nircmd.exe";
     running_apps_cache := ∅;
     last_cache_update := datetime_min;
     cache_ttl := timedelta_seconds 2;
     app_enabled := true;
     request_counts := ∅;
     modifier_key_timer := None;
     active_modifier := None;
     active_modifiers := ∅;
     apps := _define_apps home;
     timers := [];
     trace := [] |}.

(** ** Methods run in the state-and-exception monad *)

Definition M (A : Type) : Type := Self -> Self * result A.

Definition raise {A} (e : exn) : M A := fun s => (s, Raise e).
Definition gets {A} (f : Self -> A) : M A := fun s => (s, Ok (f s)).
Definition modify (f : Self -> Self) : M unit := fun s => (f s, Ok tt).
Definition lift {A} (r : result A) : M A := fun s => (s, r).

Definition ret {A} (a : A) : M A := fun s => (s, Ok a).
Definition bind {A B} (m : M A) (k : A -> M B) : M B :=
  fun s => match m s with
           | (s', Ok a) => k a s'
           | (s', Raise e) => (s', Raise e)
           end.

Notation "'let*' x ':=' m 'in' k" := (bind m (fun x => k))
  (at level 10, x name, m at level 100, k at level 200).
Notation "'let*' ( x , y ) ':=' m 'in' k" := (bind m (fun '(x, y) => k))
  (at level 10, x name, y name, m at level 100, k at level 200).

(** ** Process presence cache *)

(** The names kept by the set comprehension of
    [_update_running_apps_cache]: [p.info['name'].lower()] for every process
    whose name is neither [None] nor empty. *)
Definition process_names (procs : list (option string)) : list string :=
  omap (fun name => match name with
                    | Some EmptyString | None => None
                    | Some n => Some (str_lower n)
                    end) procs.

(** [PCRemoteControl._update_running_apps_cache].  [now] is the clock read by
    the freshness test, [probe] the outcome of [psutil.process_iter] (a list
    of process names, or the exception it raised), [now'] the clock read after
    a successful enumeration. *)
Definition _update_running_apps_cache (force : bool) (now : Z)
    (probe : result (list (option string))) (now' : Z) : M unit :=
  let* last := gets last_cache_update in
  let* ttl := gets cache_ttl in
  if negb force && (now - last <? ttl)%Z then ret tt
  else match probe with
       | Ok procs => modify (set_cache (list_to_set (process_names procs)) now')
       | Raise _ => ret tt
       end.

(** [process_name in self.running_apps_cache] *)
Definition is_running (name : string) (s : Self) : bool :=
  bool_decide (name ∈ running_apps_cache s).

(** ** Rate limiting *)

(** [[t for t in log if t > now - timedelta(minutes=1)]] *)
Definition prune (now : Z) (log : list Z) : list Z :=
  filter (fun t => (now - timedelta_minutes 1 < t)%Z) log.

(** [PCRemoteControl._rate_limit_check]; [now] is [datetime.now()]. *)
Definition _rate_limit_check (client_ip : string) (now : Z) : M bool :=
  let* rc := gets request_counts in
  let rc0 := match rc !! client_ip with
             | Some _ => rc
             | None => <[client_ip := []]> rc
             end in
  let pruned := prune now (default [] (rc0 !! client_ip)) in
  let rc1 := <[client_ip := pruned]> rc0 in
  let* _ := modify (set_request_counts rc1) in
  let* cfg := gets config in
  let* v := lift (config_getattr cfg "MAX_REQUESTS_PER_MINUTE") in
  let* limit := lift (cfg_as_int v) in
  if (limit <=? Z.of_nat (length pruned))%Z then ret false
  else
    let* _ := modify (set_request_counts (<[client_ip := (pruned ++ [now])%list]> rc1)) in
    ret true.

Section Host.

(** The host's answer to [subprocess.run(command, ...)] inside
    [_execute_command], given the calls made before it: was the return code
    0 (a timeout or any other exception counts as [false]). *)
Variable host_run : list event -> string -> bool.

(** [PCRemoteControl._execute_command] *)
Definition _execute_command (command : string) : M bool :=
  let* tr := gets trace in
  let* _ := modify (emit (EExec command)) in
  ret (host_run tr command).

Definition MODIFIER_MAP : gmap string string :=
  <["alt" := "alt"]> (<["ctrl" := "leftctrl"]> (<["shift" := "leftshift"]> ∅)).

(** [MODIFIER_MAP[modifier]] *)
Definition modifier_map_get (modifier : string) : M string :=
  match MODIFIER_MAP !! modifier with
  | Some k => ret k
  | None => raise (KeyError modifier)
  end.

(** [t.is_alive()] for the timer object [id]. *)
Definition timer_is_alive (ts : list timer_status) (id : nat) : bool :=
  match ts !! id with
  | Some Pending | Some Running => true
  | _ => false
  end.

(** [t.cancel()]: a waiting timer will not fire; otherwise no effect. *)
Definition timer_cancel (id : nat) (s : Self) : Self :=
  emit (ETimerCancel id)
    (set_timers
       (alter (fun st => match st with Pending => Cancelled | _ => st end)
              id (timers s)) s).

(** [if self.modifier_key_timer and self.modifier_key_timer.is_alive():
       self.modifier_key_timer.cancel()] *)
Definition cancel_modifier_key_timer : M unit :=
  let* t := gets modifier_key_timer in
  let* ts := gets timers in
  match t with
  | Some id => if timer_is_alive ts id then modify (timer_cancel id) else ret tt
  | None => ret tt
  end.

(** [for modifier in ...: self._execute_command(... sendkey ... up)] *)
Fixpoint release_each (ms : list string) : M unit :=
  match ms with
  | [] => ret tt
  | modifier :: rest =>
      let* nc := gets nircmd in
      let* k := modifier_map_get modifier in
      let* _ := _execute_command (dq ++ nc ++ dq ++ " sendkey " ++ k ++ " up") in
      release_each rest
  end.

(** [PCRemoteControl._clear_modifier_state] *)
Definition _clear_modifier_state : M unit :=
  let* ms := gets active_modifiers in
  let* _ := release_each (elements ms) in
  let* _ := cancel_modifier_key_timer in
  let* _ := modify (fun s => emit ESetClear (set_active_modifiers ∅ s)) in
  modify (set_modifier_key_timer None).

(** The dictionary returned by the key and modifier handlers. *)
Record ActionResponse := mkActionResponse {
  success : bool;
  message : string;
  activeModifiers : list string
}.

(** [self.modifier_key_timer = threading.Timer(4.1, self._clear_modifier_state)]
    followed by [.start()]: a fresh timer object, waiting. *)
Definition start_modifier_key_timer : M unit :=
  let* ts := gets timers in
  let* _ := modify (fun s => set_modifier_key_timer (Some (length ts))
                               (set_timers (ts ++ [Pending]) s)) in
  modify (emit (ETimerStart (length ts))).

(** [PCRemoteControl._handle_modifier_press] *)
Definition _handle_modifier_press (modifier : string) : M ActionResponse :=
  let* _ := cancel_modifier_key_timer in
  let* ms := gets active_modifiers in
  let* nc := gets nircmd in
  let* msg :=
    (if bool_decide (modifier ∈ ms) then
       let* _ := modify (fun s => emit (ESetRemove modifier)
                                    (set_active_modifiers (ms ∖ {[modifier]}) s)) in
       let* k := modifier_map_get modifier in
       let* _ := _execute_command (dq ++ nc ++ dq ++ " sendkey " ++ k ++ " up") in
       ret (str_capitalize modifier ++ " released.")
     else
       let* _ := modify (fun s => emit (ESetAdd modifier)
                                    (set_active_modifiers (ms ∪ {[modifier]}) s)) in
       let* k := modifier_map_get modifier in
       let* _ := _execute_command (dq ++ nc ++ dq ++ " sendkey " ++ k ++ " down") in
       ret (str_capitalize modifier ++ " is active.")) in
  let* ms' := gets active_modifiers in
  let* _ := (if bool_decide (ms' ≠ ∅) then start_modifier_key_timer else ret tt) in
  ret (mkActionResponse true msg (elements ms')).

(** [[MODIFIER_MAP[mod] for mod in self.active_modifiers]] *)
Fixpoint modifier_keys_of (ms : list string) : M (list string) :=
  match ms with
  | [] => ret []
  | modifier :: rest =>
      let* k := modifier_map_get modifier in
      let* ks := modifier_keys_of rest in
      ret (k :: ks)
  end.

(** Truth value of [self.active_modifier] ([None] and [''] are false). *)
Definition truthy_str (o : option string) : bool :=
  match o with
  | Some EmptyString | None => false
  | Some _ => true
  end.

(** [PCRemoteControl._handle_standard_key_press] *)
Definition _handle_standard_key_press (key_command msg : string) : M ActionResponse :=
  let* am := gets active_modifier in
  let* nc := gets nircmd in
  let* (full_command, success_message) :=
    (if truthy_str am then
       let* ms := gets active_modifiers in
       let* modifier_keys := modifier_keys_of (elements ms) in
       let combo := str_join "+" modifier_keys in
       let full_command := dq ++ nc ++ dq ++ " sendkeypress " ++ combo ++ "+" ++ key_command in
       let success_message :=
         "Sent " ++ str_join "+" (str_capitalize <$> elements ms) ++ "+" ++ msg in
       let* _ := _clear_modifier_state in
       ret (full_command, success_message)
     else
       ret (dq ++ nc ++ dq ++ " sendkeypress " ++ key_command, "Sent " ++ msg)) in
  let* ok := _execute_command full_command in
  let* ms' := gets active_modifiers in
  ret (mkActionResponse ok (if ok then success_message else "Command failed")
          (elements ms')).

(** The thread of timer [id] wakes up after 4.1 s: if the timer is still
    waiting it runs its callback, [self._clear_modifier_state], and ends
    (also when the callback raises). *)
Definition timer_fire (id : nat) : M unit :=
  let* ts := gets timers in
  match ts !! id with
  | Some Pending =>
      let* _ := modify (set_timers (<[id := Running]> ts)) in
      (fun s => let '(s', r) := _clear_modifier_state s in
                (set_timers (<[id := Finished]> (timers s')) s', r))
  | _ => ret tt
  end.

(** The dictionary returned by [app_toggle]. *)
Record ToggleResponse := mkToggleResponse {
  t_success : bool;
  t_message : string;
  t_running : option bool
}.

(** The host's answer to [subprocess.Popen(cmd, shell=True)], given the calls
    made before it: [None] when the process was started, [Some msg] when
    [Popen] raised an exception [e] with [str(e) = msg]. *)
Variable host_popen : list event -> string -> option string.

(** The route [/api/app/<app_name>/toggle] (body of [app_toggle]).  The two
    forced cache refreshes get their process enumerations and clock readings
    as [probe1], [now1] and [probe2], [now2] (a forced refresh does not read
    the clock for the freshness test). *)
Definition app_toggle (app_name : string)
    (probe1 : result (list (option string))) (now1 : Z)
    (probe2 : result (list (option string))) (now2 : Z) : M ToggleResponse :=
  let* registry := gets apps in
  match registry !! app_name with
  | None => ret (mkToggleResponse false "App not configured" None)
  | Some app_config =>
      let display_name := str_title app_name in
      let process_name :=
        str_lower (default (exe app_config) (process_name app_config)) in
      let is_closable := default true (closable app_config) in
      let* _ := _update_running_apps_cache true now1 probe1 now1 in
      let* running := gets (is_running process_name) in
      let finish (ok : bool) (msg : string) : M ToggleResponse :=
        let* _ := _update_running_apps_cache true now2 probe2 now2 in
        ret (mkToggleResponse ok msg (Some (if ok then negb running else running))) in
      if running then
        if negb is_closable then
          ret (mkToggleResponse true ("cannot be close " ++ display_name) (Some true))
        else
          let* ok := _execute_command
                       ("taskkill /F /IM " ++ dq ++ exe app_config ++ dq) in
          finish ok (if ok then display_name ++ " closed."
                     else "Failed to close " ++ display_name ++ ".")
      else
        let* tr := gets trace in
        let* _ := modify (emit (EPopen (cmd app_config))) in
        match host_popen tr (cmd app_config) with
        | None => finish true (display_name ++ " started.")
        | Some e => finish false ("Failed to start " ++ display_name ++ ": " ++ e)
        end
  end.

End Host.

(** ** Session guard and login *)

(** A value stored in the Flask session: a boolean, or the ISO string of a
    datetime (kept as the datetime it denotes). *)
Inductive sval :=
| SBool (b : bool)
| SIso (t : Z).

Record Request := mkRequest {
  method : string;
  endpoint : option string;
  remote_addr : string;
  form : gmap string string
}.

Inductive Response :=
| Json (status : nat) (error : string)
| Redirect (target : string)
| Render (template : string).

(** [datetime.fromisoformat(session['last_activity'])] *)
Definition session_last_activity (session : gmap string sval) : result Z :=
  match session !! "last_activity" with
  | Some (SIso t) => Ok t
  | Some (SBool _) => Raise TypeError
  | None => Raise (KeyError "last_activity")
  end.

(** [before_request].  The result is the session after the hook and the
    response it returns, [None] when the request goes on to its route.  The
    three clock readings are those of [_rate_limit_check], of the expiry test
    and of the refresh.  Every point where the hook can raise comes before
    its writes to the session. *)
Definition before_request (req : Request) (session : gmap string sval)
    (now_rl now_chk now_set : Z) : M (gmap string sval * option Response) :=
  let* enabled := gets app_enabled in
  if negb enabled && negb (bool_decide (endpoint req = Some "static")) then
    ret (session, Some (Json 503 "App is disabled from system tray"))
  else
    let* allowed := _rate_limit_check (remote_addr req) now_rl in
    if negb allowed then ret (session, Some (Json 429 "Rate limit exceeded"))
    else if bool_decide (is_Some (session !! "logged_in"))
            && bool_decide (is_Some (session !! "last_activity")) then
      let* last := lift (session_last_activity session) in
      let* cfg := gets config in
      let* v := lift (config_getattr cfg "SESSION_TIMEOUT") in
      let* minutes := lift (cfg_as_int v) in
      if (timedelta_minutes minutes <? now_chk - last)%Z then
        ret (∅, Some (Redirect "login"))
      else ret (<["last_activity" := SIso now_set]> session, None)
    else ret (session, None).

(** [request.form.get(field) == self.config.<NAME>] *)
Definition form_matches (field : option string) (v : cfgval) : bool :=
  match field, v with
  | Some x, CStr y => bool_decide (x = y)
  | _, _ => false
  end.

(** The route [/login]. *)
Definition login (req : Request) (session : gmap string sval)
    : M (gmap string sval * Response) :=
  if bool_decide (method req = "POST") then
    let* cfg := gets config in
    let* u := lift (config_getattr cfg "USERNAME") in
    if form_matches (form req !! "username") u then
      let* p := lift (config_getattr cfg "PASSWORD") in
      if form_matches (form req !! "password") p then
        ret (<["logged_in" := SBool true]> session, Redirect "index")
      else ret (session, Render "login.html")
    else ret (session, Render "login.html")
  else ret (session, Render "login.html").

(** The route [/logout]. *)
Definition logout (session : gmap string sval) : gmap string sval * Response :=
  (∅, Redirect "login").

(** [session.get("logged_in")] as a truth value, the test of
    [login_required]. *)
Definition session_logged_in (session : gmap string sval) : bool :=
  match session !! "logged_in" with
  | Some (SBool b) => b
  | Some (SIso _) => true
  | None => false
  end.

(** ** Volume *)

(** Where the audio endpoint fails during [_set_volume], if it does: before
    the level is set ([CoInitialize], [GetSpeakers], [Activate],
    [QueryInterface]), in [SetMasterVolumeLevelScalar] itself, or after it
    ([CoUninitialize]); [msg] is [str(e)]. *)
Inductive audio_fault :=
| NoFault
| FaultBeforeSet (msg : string)
| FaultInSet (msg : string)
| FaultAfterSet (msg : string).

Record VolumeResponse := mkVolumeResponse {
  v_success : bool;
  v_message : string
}.

(** [max(0, min(100, value))] *)
Definition clamp_volume (value : Z) : Z := Z.max 0 (Z.min 100 value).

(** [PCRemoteControl._set_volume].  The first component lists the calls
    [SetMasterVolumeLevelScalar(value / 100.0, None)] that were made, each by
    its integer [value]. *)
Definition _set_volume (value : Z) (fault : audio_fault)
    : list Z * VolumeResponse :=
  match fault with
  | FaultBeforeSet msg => ([], mkVolumeResponse false msg)
  | FaultInSet msg => ([clamp_volume value], mkVolumeResponse false msg)
  | FaultAfterSet msg => ([clamp_volume value], mkVolumeResponse false msg)
  | NoFault =>
      ([clamp_volume value],
       mkVolumeResponse true ("Volume set to " ++ pretty (clamp_volume value) ++ "%"))
  end.

(** ** Sequences of calls, and the invariant of the modifier state machine *)

(** One [_rate_limit_check] for the same client at each of the clock
    readings [nows], in order. *)
Fixpoint rate_limit_burst (client_ip : string) (nows : list Z) : M (list bool) :=
  match nows with
  | [] => ret []
  | now :: rest =>
      let* allowed := _rate_limit_check client_ip now in
      let* others := rate_limit_burst client_ip rest in
      ret (allowed :: others)
  end.

(** The recorded timestamps of a client ([[]] when it has none). *)
Definition client_log (s : Self) (client_ip : string) : list Z :=
  default [] (request_counts s !! client_ip).

(** One [_handle_modifier_press] for each modifier of [ms], in order. *)
Fixpoint toggle_each (host_run : list event -> string -> bool)
    (ms : list string) : M (list ActionResponse) :=
  match ms with
  | [] => ret []
  | modifier :: rest =>
      let* r := _handle_modifier_press host_run modifier in
      let* rs := toggle_each host_run rest in
      ret (r :: rs)
  end.

(** [n] calls of [_clear_modifier_state] in succession. *)
Fixpoint clear_repeatedly (host_run : list event -> string -> bool)
    (n : nat) : M unit :=
  match n with
  | O => ret tt
  | S k =>
      let* _ := _clear_modifier_state host_run in
      clear_repeatedly host_run k
  end.

(** The state and the events that
    [if self.modifier_key_timer and self.modifier_key_timer.is_alive():
       self.modifier_key_timer.cancel()] leaves. *)
Definition cancelled (s : Self) : Self := (cancel_modifier_key_timer s).1.

Definition cancel_events (s : Self) : list event :=
  match modifier_key_timer s with
  | Some id => if timer_is_alive (timers s) id then [ETimerCancel id] else []
  | None => []
  end.

(** Adding several events to the trace. *)
Definition emit_all (evs : list event) (s : Self) : Self :=
  foldl (fun st e => emit e st) s evs.

(** The command lines of the modifier handlers. *)
Definition sendkey_command (nc modifier direction : string) : string :=
  dq ++ nc ++ dq ++ " sendkey " ++ default "" (MODIFIER_MAP !! modifier)
     ++ " " ++ direction.

Definition sendkeypress_command (nc keys : string) : string :=
  dq ++ nc ++ dq ++ " sendkeypress " ++ keys.

(** The state that [start_modifier_key_timer] leaves. *)
Definition started (s : Self) : Self :=
  emit (ETimerStart (length (timers s)))
    (set_modifier_key_timer (Some (length (timers s)))
       (set_timers (timers s ++ [Pending]) s)).

(** The state that [_handle_modifier_press modifier] leaves when
    [modifier] is a key of [MODIFIER_MAP]. *)
Definition toggled (modifier : string) (s : Self) : Self :=
  let held := bool_decide (modifier ∈ active_modifiers s) in
  let ms' := if held then active_modifiers s ∖ {[modifier]}
             else active_modifiers s ∪ {[modifier]} in
  let s2 :=
    emit (EExec (sendkey_command (nircmd s) modifier (if held then "up" else "down")))
      (emit (if held then ESetRemove modifier else ESetAdd modifier)
         (set_active_modifiers ms' (cancelled s))) in
  if bool_decide (ms' ≠ ∅) then started s2 else s2.

(** The commands of the loop of [_clear_modifier_state]. *)
Definition release_commands (s : Self) : list string :=
  (fun m => sendkey_command (nircmd s) m "up") <$> elements (active_modifiers s).

(** The state that [_clear_modifier_state] leaves when every held modifier
    is a key of [MODIFIER_MAP]. *)
Definition cleared (s : Self) : Self :=
  set_modifier_key_timer None
    (emit ESetClear
       (set_active_modifiers ∅
          (cancelled (emit_all (EExec <$> release_commands s) s)))).

(** The events of a trace that are calls to the host. *)
Definition is_host_call (e : event) : bool :=
  match e with
  | EExec _ | EPopen _ | ETimerStart _ | ETimerCancel _ => true
  | ESetAdd _ | ESetRemove _ | ESetClear => false
  end.

Definition host_calls (tr : list event) : list event :=
  List.filter is_host_call tr.

(** The commands handed to [_execute_command]. *)
Definition commands (tr : list event) : list string :=
  omap (fun e => match e with EExec c => Some c | _ => None end) tr.

(** What a client or the host can observe of the modifier state machine:
    the set, the timer attribute, the timer objects and the host calls. *)
Definition modifier_view (s : Self)
    : gset string * option nat * list timer_status * list event :=
  (active_modifiers s, modifier_key_timer s, timers s, host_calls (trace s)).

(** The events added to the trace between [s] and a later state [s']. *)
Definition new_events (s s' : Self) : list event :=
  drop (length (trace s)) (trace s').

#[global] Instance timer_status_eq_dec : EqDecision timer_status.
Proof. solve_decision. Defined.

(** Timer [id] is live: started, and neither cancelled nor fired. *)
Definition live (s : Self) (id : nat) : Prop := timers s !! id = Some Pending.

(** The live timers of a state. *)
Definition live_timers (s : Self) : gset nat :=
  list_to_set (filter (fun id => timers s !! id = Some Pending)
                      (seq 0 (length (timers s)))).

(** The operations of the modifier state machine. *)
Inductive modifier_op :=
| OpToggle (modifier : string)
| OpKeyPress (key_command msg : string)
| OpForceClear
| OpTimerFire (id : nat).

Definition run_op (host_run : list event -> string -> bool) (o : modifier_op)
    : M unit :=
  match o with
  | OpToggle m => let* _ := _handle_modifier_press host_run m in ret tt
  | OpKeyPress k msg => let* _ := _handle_standard_key_press host_run k msg in ret tt
  | OpForceClear => _clear_modifier_state host_run
  | OpTimerFire id => timer_fire host_run id
  end.

(** A sequence of operations, one after the other. *)
Fixpoint run_ops (host_run : list event -> string -> bool)
    (ops : list modifier_op) : M unit :=
  match ops with
  | [] => ret tt
  | o :: rest => let* _ := run_op host_run o in run_ops host_run rest
  end.

(** The routes only toggle the three modifiers of [MODIFIER_MAP]. *)
Definition op_enabled (o : modifier_op) : Prop :=
  match o with
  | OpToggle m => m ∈ dom MODIFIER_MAP
  | _ => True
  end.

(** The invariant: the set is non-empty exactly when a timer is live, at most
    one timer is live, and, to make it inductive, the live timer is the one
    [self.modifier_key_timer] refers to and every held modifier is a key of
    [MODIFIER_MAP]. *)
Record modifier_inv (s : Self) : Prop := mkModifierInv {
  inv_nonempty_iff_live : active_modifiers s ≠ ∅ ↔ ∃ id, live s id;
  inv_one_live : ∀ i j, live s i → live s j → i = j;
  inv_live_referenced : ∀ id, live s id → modifier_key_timer s = Some id;
  inv_known : active_modifiers s ⊆ dom MODIFIER_MAP
}.

(** Replaying the events of a transition from the set [alive] of live
    timers: no timer is live when a timer is started and when the modifier set
    is written. *)
Fixpoint cancel_before (alive : gset nat) (evs : list event) : bool :=
  match evs with
  | [] => true
  | ETimerCancel id :: rest => cancel_before (alive ∖ {[id]}) rest
  | ETimerStart id :: rest => bool_decide (alive = ∅) && cancel_before {[id]} rest
  | ESetAdd _ :: rest | ESetRemove _ :: rest | ESetClear :: rest =>
      bool_decide (alive = ∅) && cancel_before alive rest
  | _ :: rest => cancel_before alive rest
  end.

(** ** Concrete objects *)

(** A configuration file that sets the limit to 2, and the object built
    from it. *)
Definition config_limit_2 : Config :=
  Config_init "C:\remote" "C:\remote" "Speakers" "Microphone"
    {[ "MAX_REQUESTS_PER_MINUTE" := CInt 2 ]}.

Definition self_limit_2 : Self := PCRemoteControl_init config_limit_2 "C:\Users\me".

(** A browser session that holds both keys read by the expiry test, and a
    request for a protected route. *)
Definition session_with_activity : gmap string sval :=
  <["last_activity" := SIso 1000000%Z]> {[ "logged_in" := SBool true ]}.

Definition status_request : Request :=
  mkRequest "GET" (Some "get_all_status") "10.0.0.7" ∅.

(** The login form filled with the default credentials. *)
Definition login_request : Request :=
  mkRequest "POST" (Some "login") "10.0.0.7"
    (<["username" := "admin"]> {[ "password" := "password" ]}).

(** The object after Alt was pressed, and after it was pressed again. *)
Definition self_alt_held : Self := toggled "alt" self_limit_2.

Definition self_alt_released : Self := toggled "alt" self_alt_held.

(** ** The remaining handlers and routes *)

(** An answer of a host library whose failure text is used: the value, or
    [str(e)] of the exception it raised. *)
Inductive host_reply (A : Type) :=
| Reply (a : A)
| Failed (msg : string).
Arguments Reply {A} a.
Arguments Failed {A} msg.

(** The result of code that can raise [IndexError], an exception that
    [exn] does not list. *)
Inductive or_IndexError (A : Type) :=
| Returned (a : A)
| IndexError.
Arguments Returned {A} a.
Arguments IndexError {A}.

(** ASCII whitespace, as [str.split()] without argument sees it. *)
Definition ascii_is_space (c : ascii) : bool :=
  let n := nat_of_ascii c in
  ((9 <=? n)%nat && (n <=? 13)%nat) || ((28 <=? n)%nat && (n <=? 32)%nat).

Fixpoint str_until_space (s : string) : string :=
  match s with
  | EmptyString => EmptyString
  | String c r => if ascii_is_space c then EmptyString else String c (str_until_space r)
  end.

(** [s.split()[0]]: the first whitespace-delimited word; [None] stands for
    the [IndexError] of a blank string. *)
Fixpoint first_word (s : string) : option string :=
  match s with
  | EmptyString => None
  | String c r => if ascii_is_space c then first_word r else Some (str_until_space s)
  end.

(** [s.split(' ')[0]]: what precedes the first space. *)
Fixpoint before_first_space (s : string) : string :=
  match s with
  | EmptyString => EmptyString
  | String c r =>
      if bool_decide (c = ascii_of_nat 32) then EmptyString
      else String c (before_first_space r)
  end.

(** [s.startswith(p)] *)
Fixpoint str_startswith (p s : string) : bool :=
  match p, s with
  | EmptyString, _ => true
  | String _ _, EmptyString => false
  | String a p', String b s' => bool_decide (a = b) && str_startswith p' s'
  end.

(** [needle in hay] *)
Fixpoint str_contains (needle hay : string) : bool :=
  str_startswith needle hay
  || match hay with
     | EmptyString => false
     | String _ r => str_contains needle r
     end.

(** [f"{v}"] for a configuration value. *)
Definition cfg_format (v : cfgval) : string :=
  match v with
  | CStr s => s
  | CInt n => pretty n
  | CBool b => if b then "True" else "False"
  end.

(** [text == v] for a string and a configuration value. *)
Definition str_eq_cfg (text : string) (v : cfgval) : bool :=
  match v with
  | CStr s => bool_decide (text = s)
  | _ => false
  end.

(** [str(e)] for the [AttributeError] of a missing [Config] attribute. *)
Definition missing_attribute_message (name : string) : string :=
  "'Config' object has no attribute '" ++ name ++ "'".

Definition set_app_enabled (b : bool) (s : Self) : Self :=
  mkSelf (config s) (nircmd s) (running_apps_cache s) (last_cache_update s)
    (cache_ttl s) b (request_counts s) (modifier_key_timer s) (active_modifier s)
    (active_modifiers s) (apps s) (timers s) (trace s).

(** [PCRemoteControl._toggle_app_enabled] (the tray icon is not modelled). *)
Definition _toggle_app_enabled : M unit :=
  modify (fun s => set_app_enabled (negb (app_enabled s)) s).

(** The dictionary returned by [_create_simple_response], [_take_screenshot]
    and [_toggle_audio_device]. *)
Record SimpleResponse := mkSimpleResponse {
  r_success : bool;
  r_message : string
}.

(** [_get_mute_states]' dictionary. *)
Record MuteStates := mkMuteStates {
  speaker_muted : bool;
  mic_muted : bool;
  is_headphone_active : bool
}.

(** What the audio libraries answer during one [_get_mute_states]: the name
    of the default output device, whether [CoInitialize] succeeded, and the two
    [GetMute] answers. *)
Record AudioProbe := mkAudioProbe {
  output_device : host_reply string;
  com_initialized : bool;
  speaker_mute : host_reply bool;
  microphone_mute : host_reply bool
}.

Section Handlers.

Variable host_run : list event -> string -> bool.

(** [PCRemoteControl._create_simple_response] *)
Definition _create_simple_response (command success_message : string)
    : M (or_IndexError SimpleResponse) :=
  let* ok := _execute_command host_run command in
  if ok then ret (Returned (mkSimpleResponse true success_message))
  else match first_word command with
       | Some word =>
           ret (Returned (mkSimpleResponse false ("Failed to execute: " ++ word)))
       | None => ret IndexError
       end.

(** [PCRemoteControl._handle_arrow] *)
Definition _handle_arrow (key_code msg : string) : M (or_IndexError SimpleResponse) :=
  let* nc := gets nircmd in
  _create_simple_response (dq ++ nc ++ dq ++ " sendkeypress " ++ key_code) msg.

(** [PCRemoteControl._take_screenshot]; [epoch] is [int(time.time())] and
    [fault] the text of the exception that creating the directory, grabbing or
    saving raised, if one did. *)
Definition _take_screenshot (epoch : Z) (fault : option string) : SimpleResponse :=
  match fault with
  | None => mkSimpleResponse true
              ("Screenshot saved to " ++ "screenshot_" ++ pretty epoch ++ ".png")
  | Some msg => mkSimpleResponse false msg
  end.

(** [PCRemoteControl._toggle_audio_device]; [device] is the answer of
    [sd.query_devices(kind='output')['name']] after the re-initialisation. *)
Definition _toggle_audio_device (device : host_reply string) : M SimpleResponse :=
  match device with
  | Failed msg => ret (mkSimpleResponse false msg)
  | Reply name =>
      let current_device := before_first_space name in
      let* cfg := gets config in
      match config_getattr cfg "PLAYBACK_DEVICE_1" with
      | Raise _ =>
          ret (mkSimpleResponse false (missing_attribute_message "PLAYBACK_DEVICE_1"))
      | Ok device_1 =>
          let chosen :=
            if str_eq_cfg current_device device_1
            then "PLAYBACK_DEVICE_2" else "PLAYBACK_DEVICE_1" in
          match config_getattr cfg chosen with
          | Raise _ => ret (mkSimpleResponse false (missing_attribute_message chosen))
          | Ok target_device =>
              let* nc := gets nircmd in
              let* ok := _execute_command host_run
                           (dq ++ nc ++ dq ++ " setdefaultsounddevice " ++ dq
                               ++ cfg_format target_device ++ dq ++ " 1") in
              if ok then
                ret (mkSimpleResponse true ("Switched to " ++ cfg_format target_device))
              else ret (mkSimpleResponse false "Failed to switch audio device")
          end
      end
  end.

(** [PCRemoteControl._get_mute_states].  Each of the three values keeps its
    initial [False] when the probe behind it raises. *)
Definition _get_mute_states (cfg : Config) (probe : AudioProbe) : MuteStates :=
  let headphone :=
    match output_device probe with
    | Failed _ => false
    | Reply name =>
        match config_getattr cfg "PLAYBACK_DEVICE_2" with
        | Ok (CStr headphone_name) =>
            str_contains (str_lower headphone_name)
                         (str_lower (before_first_space name))
        | _ => false
        end
    end in
  let muted (answer : host_reply bool) :=
    com_initialized probe && match answer with Reply b => b | Failed _ => false end in
  mkMuteStates (muted (speaker_mute probe)) (muted (microphone_mute probe)) headphone.


(** The callables stored in the [actions] dictionary of [handle_action]. *)
Inductive action :=
| Simple (command success_message : string)  (* partial(self._create_simple_response, ...) *)
| StandardKey (key_command msg : string)     (* partial(self._handle_standard_key_press, ...) *)
| ModifierPress (modifier : string)          (* partial(self._handle_modifier_press, ...) *)
| Screenshot                                 (* self._take_screenshot *)
| AudioDeviceToggle.                         (* self._toggle_audio_device *)

(** The [actions] dictionary; [nc] is [self.nircmd] and [recording_1] the
    formatted [self.config.RECORDING_DEVICE_1]. *)
Definition actions (nc recording_1 : string) : gmap string action :=
  let nir (arguments : string) := dq ++ nc ++ dq ++ arguments in
  list_to_map
    [ ("media_play_pause", Simple (nir " sendkeypress 0xB3") "Media play/pause toggled");
      ("media_next", Simple (nir " sendkeypress 0xB0") "Skipped to next track");
      ("media_previous", Simple (nir " sendkeypress 0xB1") "Skipped to previous track");
      ("undo", Simple (nir " sendkeypress leftctrl+z") "Undo (Ctrl+Z)");
      ("redo", Simple (nir " sendkeypress leftctrl+y") "Redo (Ctrl+Y)");
      ("sleep", Simple (nir " standby") "System sleep initiated");
      ("hard_sleep", Simple "rundll32.exe powrprof.dll,SetSuspendState 0,1,0"
                       "System hard sleep initiated");
      ("shutdown", Simple "shutdown /s /t 5" "System shutdown initiated");
      ("restart", Simple "shutdown /r /t 5" "System restart initiated");
      ("lock", Simple "rundll32.exe user32.dll,LockWorkStation" "Workstation locked");
      ("mute_toggle_sound", Simple (nir " mutesysvolume 2")
                              "System volume mute toggled");
      ("mute_toggle_mic", Simple (nir (" mutesysvolume 2 " ++ dq ++ recording_1 ++ dq))
                            "Microphone mute toggled");
      ("arrow_left", StandardKey "left" "Left");
      ("arrow_up", StandardKey "up" "Up");
      ("arrow_right", StandardKey "right" "Right");
      ("arrow_down", StandardKey "down" "Down");
      ("press_enter", StandardKey "enter" "Enter");
      ("press_space", StandardKey "spc" "Space");
      ("press_esc", StandardKey "esc" "Esc");
      ("press_backspace", StandardKey "backspace" "Backspace");
      ("press_win", StandardKey "lwin" "Window");
      ("press_tab", StandardKey "tab" "Tab");
      ("press_del", StandardKey "delete" "Delete");
      ("press_f4", StandardKey "f4" "F4");
      ("press_f5", StandardKey "f5" "F5");
      ("press_alt", ModifierPress "alt");
      ("press_ctrl", ModifierPress "ctrl");
      ("press_shift", ModifierPress "shift");
      ("screenshot", Screenshot);
      ("audio_device_toggle", AudioDeviceToggle) ].

(** The JSON object answered by [handle_action]: [activeModifiers] is there
    for the key and modifier handlers, [state] for every known action. *)
Record ActionJson := mkActionJson {
  j_success : bool;
  j_message : string;
  j_activeModifiers : option (list string);
  j_state : option MuteStates
}.

(** What the host answers during one [handle_action]: the clock and fault
    of a screenshot, the output device of an audio toggle, and the probe of the
    final [_get_mute_states]. *)
Record ActionHost := mkActionHost {
  shot_epoch : Z;
  shot_fault : option string;
  toggle_device : host_reply string;
  mute_probe : AudioProbe
}.

(** Calling the stored callable. *)
Definition call_action (host : ActionHost) (a : action)
    : M (or_IndexError (bool * string * option (list string))) :=
  match a with
  | Simple command success_message =>
      let* r := _create_simple_response command success_message in
      match r with
      | Returned r => ret (Returned (r_success r, r_message r, None))
      | IndexError => ret IndexError
      end
  | StandardKey key_command msg =>
      let* r := _handle_standard_key_press host_run key_command msg in
      ret (Returned (success r, message r, Some (activeModifiers r)))
  | ModifierPress modifier =>
      let* r := _handle_modifier_press host_run modifier in
      ret (Returned (success r, message r, Some (activeModifiers r)))
  | Screenshot =>
      let r := _take_screenshot (shot_epoch host) (shot_fault host) in
      ret (Returned (r_success r, r_message r, None))
  | AudioDeviceToggle =>
      let* r := _toggle_audio_device (toggle_device host) in
      ret (Returned (r_success r, r_message r, None))
  end.

(** The route [/api/action/<action_name>] (body of [handle_action]).  The
    dictionary is built on every call, which reads
    [self.config.RECORDING_DEVICE_1]. *)
Definition handle_action (host : ActionHost) (action_name : string)
    : M (or_IndexError ActionJson) :=
  let* nc := gets nircmd in
  let* cfg := gets config in
  let* recording_1 := lift (config_getattr cfg "RECORDING_DEVICE_1") in
  match actions nc (cfg_format recording_1) !! action_name with
  | Some a =>
      let* r := call_action host a in
      match r with
      | Returned (ok, msg, mods) =>
          ret (Returned (mkActionJson ok msg mods
                           (Some (_get_mute_states cfg (mute_probe host)))))
      | IndexError => ret IndexError
      end
  | None => ret (Returned (mkActionJson false "Invalid action" None None))
  end.



(** [login_required]: the wrapped view runs only for a session whose
    [logged_in] is true. *)
Definition login_required {A} (session : gmap string sval) (view : M A)
    : M (Response + A) :=
  if session_logged_in session then
    let* a := view in ret (inr a)
  else ret (inl (Redirect "login")).

(** A request served by Flask: [before_request] first, and the view only
    when the hook returned [None]. *)
Definition serve {A} (req : Request) (session : gmap string sval)
    (now_rl now_chk now_set : Z) (view : gmap string sval -> M A)
    : M (gmap string sval * (Response + A)) :=
  let* (session', early) := before_request req session now_rl now_chk now_set in
  match early with
  | Some resp => ret (session', inl resp)
  | None => let* a := view session' in ret (session', inr a)
  end.

(** A request for [/api/action/<action_name>]. *)
Definition action_request (req : Request) (session : gmap string sval)
    (now_rl now_chk now_set : Z) (host : ActionHost) (action_name : string)
    : M (gmap string sval * (Response + (Response + or_IndexError ActionJson))) :=
  serve req session now_rl now_chk now_set
    (fun session' => login_required session' (handle_action host action_name)).

End Handlers.

(** ** The host's view of the modifier keys *)

(** The effect of one command on the set of modifiers the host holds down:
    [sendkey <key> down] presses the modifier of that key, [sendkey <key> up]
    releases it, any other command leaves the set alone. *)
Definition host_apply (nc : string) (held : gset string) (command : string)
    : gset string :=
  foldl (fun h m =>
           if bool_decide (command = sendkey_command nc m "down") then h ∪ {[m]}
           else if bool_decide (command = sendkey_command nc m "up") then h ∖ {[m]}
           else h)
        held ["alt"; "ctrl"; "shift"].

(** The modifiers held down on the host after the commands [cmds], when
    every command took effect. *)
Definition host_held (nc : string) (cmds : list string) : gset string :=
  foldl (host_apply nc) ∅ cmds.

(** The set and the host agree: the modifiers down on the host are exactly
    the held ones. *)
Definition mirrors_host (s : Self) : Prop :=
  host_held (nircmd s) (commands (trace s)) = active_modifiers s.

(** Whether a string has a space in it. *)
Fixpoint str_has_space (s : string) : bool :=
  match s with
  | EmptyString => false
  | String c r => bool_decide (c = ascii_of_nat 32) || str_has_space r
  end.

(** The requests that were allowed: the clock readings whose check answered
    [True]. *)
Fixpoint allowed_times (nows : list Z) (answers : list bool) : list Z :=
  match nows, answers with
  | now :: nows', true :: answers' => now :: allowed_times nows' answers'
  | _ :: nows', false :: answers' => allowed_times nows' answers'
  | _, _ => []
  end.

(** Clock readings that never go back. *)
Fixpoint nondecreasing (nows : list Z) : Prop :=
  match nows with
  | [] => True
  | now :: rest => (∀ t, t ∈ rest → (now ≤ t)%Z) ∧ nondecreasing rest
  end.

(** * Properties *)

(** ** Rate limiter *)

Lemma set_request_counts_twice rc rc' s :
  set_request_counts rc (set_request_counts rc' s) = set_request_counts rc s.
Proof. reflexivity. Qed.

Lemma rate_limit_step s client now limit :
  config_getattr (config s) "MAX_REQUESTS_PER_MINUTE" = Ok (CInt limit) →
  _rate_limit_check client now s =
    let pruned := prune now (client_log s client) in
    if (limit <=? Z.of_nat (length pruned))%Z
    then (set_request_counts (<[client := pruned]> (request_counts s)) s, Ok false)
    else (set_request_counts (<[client := (pruned ++ [now])%list]> (request_counts s)) s,
          Ok true).
Proof.
  intros Hcfg. unfold _rate_limit_check, client_log, bind, gets, modify, lift, ret.
  cbn [config set_request_counts]. rewrite Hcfg. cbn [cfg_as_int].
  destruct (request_counts s !! client) as [l|] eqn:Hl.
  - rewrite Hl. cbn zeta.
    destruct (limit <=? _)%Z; [reflexivity|].
    rewrite set_request_counts_twice, (insert_insert_eq (request_counts s)).
    reflexivity.
  - rewrite (lookup_insert_eq (request_counts s)). cbn zeta.
    rewrite !(insert_insert_eq (request_counts s)).
    destruct (limit <=? _)%Z; reflexivity.
Qed.

Lemma prune_all_old now (log : list Z) :
  (∀ t, t ∈ log → (t + timedelta_minutes 1 ≤ now)%Z) → prune now log = [].
Proof.
  induction log as [|t log IH]; intros Hold; [reflexivity|].
  unfold prune. rewrite filter_cons_False.
  - apply IH. intros t' Ht'. apply Hold. by right.
  - specialize (Hold t ltac:(by left)). lia.
Qed.

Lemma prune_all_fresh now (log : list Z) :
  (∀ t, t ∈ log → (now - timedelta_minutes 1 < t)%Z) → prune now log = log.
Proof.
  induction log as [|t log IH]; intros Hfresh; [reflexivity|].
  unfold prune. rewrite filter_cons_True.
  - f_equal. apply IH. intros t' Ht'. apply Hfresh. by right.
  - apply Hfresh. by left.
Qed.

Lemma client_log_insert s client log :
  client_log (set_request_counts (<[client := log]> (request_counts s)) s) client = log.
Proof.
  unfold client_log. cbn [request_counts set_request_counts].
  by rewrite (lookup_insert_eq (request_counts s)).
Qed.

(** A run of checks whose clock readings keep every recorded and every new
    timestamp inside the window: the first [limit - length log] are allowed,
    all later ones are rejected. *)
Lemma rate_limit_burst_fresh client limit (nows : list Z) :
  ∀ s,
  config_getattr (config s) "MAX_REQUESTS_PER_MINUTE" = Ok (CInt limit) →
  (∀ t now, t ∈ client_log s client → now ∈ nows →
            (now - timedelta_minutes 1 < t)%Z) →
  (∀ t now, t ∈ nows → now ∈ nows → (now - timedelta_minutes 1 < t)%Z) →
  let k := Z.to_nat (limit - Z.of_nat (length (client_log s client))) in
  ∃ s', rate_limit_burst client nows s =
          (s', Ok (replicate (k `min` length nows) true
                   ++ replicate (length nows - k) false)%list)
        ∧ client_log s' client = (client_log s client ++ take k nows)%list
        ∧ config s' = config s.
Proof.
  induction nows as [|now rest IH]; intros s Hcfg Hlog Hnows k.
  - exists s. split_and!; [|by rewrite take_nil, app_nil_r|done].
    cbn. by rewrite Nat.min_0_r.
  - cbn [rate_limit_burst]. unfold bind at 1.
    rewrite (rate_limit_step s client now limit Hcfg). cbn zeta.
    rewrite prune_all_fresh by (intros t Ht; apply Hlog; [done|by left]).
    destruct (limit <=? _)%Z eqn:Hle.
    + apply Z.leb_le in Hle.
      set (s1 := set_request_counts _ s).
      destruct (IH s1) as (s' & Hrun & Hlog' & Hcfg').
      * exact Hcfg.
      * intros t n Ht Hn. unfold s1 in Ht. rewrite client_log_insert in Ht.
        apply Hlog; [done|by right].
      * intros t n Ht Hn. apply Hnows; by right.
      * subst s1. rewrite client_log_insert in Hrun, Hlog'.
        replace (Z.to_nat _) with 0 in Hrun, Hlog' by lia.
        assert (k = 0) as -> by (unfold k; lia).
        exists s'. unfold bind, ret. rewrite Hrun.
        split_and!; [|by rewrite Hlog', !take_0|done].
        cbn. by rewrite Nat.sub_0_r.
    + apply Z.leb_gt in Hle.
      set (s1 := set_request_counts _ s).
      destruct (IH s1) as (s' & Hrun & Hlog' & Hcfg').
      * exact Hcfg.
      * intros t n Ht Hn. unfold s1 in Ht. rewrite client_log_insert in Ht.
        apply elem_of_app in Ht as [Ht|Ht].
        -- apply Hlog; [done|by right].
        -- apply list_elem_of_singleton in Ht as ->. apply Hnows; [by left|by right].
      * intros t n Ht Hn. apply Hnows; by right.
      * subst s1. rewrite client_log_insert in Hrun, Hlog'.
        rewrite length_app in Hrun, Hlog'. cbn [length] in Hrun, Hlog'.
        assert (k = S (Z.to_nat (limit - Z.of_nat (length (client_log s client) + 1))))
          as -> by (unfold k; lia).
        exists s'. unfold bind, ret. rewrite Hrun.
        split_and!; [done|rewrite Hlog'; cbn [take]; by rewrite <- app_assoc|done].
Qed.

(** C4.  With a positive configured limit: each check prunes the client's
    timestamps to those newer than 60 s, rejects without appending when at
    least [limit] remain, and otherwise appends the current time and allows,
    leaving every other client untouched; [limit + 1] checks within one
    second, for a client with no timestamp inside the window, are allowed
    except the last; and a check made once the window has passed is allowed
    again. *)
Theorem rate_limit_sliding_window
    (s : Self) (client : string) (limit : Z) (nows : list Z) (t0 later : Z) :
  config_getattr (config s) "MAX_REQUESTS_PER_MINUTE" = Ok (CInt limit) →
  (0 < limit)%Z →
  Z.of_nat (length nows) = (limit + 1)%Z →
  (∀ t, t ∈ nows → (t0 ≤ t ≤ t0 + timedelta_seconds 1)%Z) →
  (∀ t, t ∈ client_log s client → (t + timedelta_minutes 1 ≤ t0)%Z) →
  (∀ t, t ∈ nows → (t + timedelta_minutes 1 ≤ later)%Z) →
  (∀ now,
     let pruned := prune now (client_log s client) in
     (∀ t, t ∈ pruned ↔ (now - timedelta_minutes 1 < t)%Z ∧ t ∈ client_log s client) ∧
     ∃ s', _rate_limit_check client now s
             = (s', Ok (negb (limit <=? Z.of_nat (length pruned))%Z))
           ∧ client_log s' client
             = (if (limit <=? Z.of_nat (length pruned))%Z
                then pruned else (pruned ++ [now])%list)
           ∧ ∀ other, other ≠ client →
                      request_counts s' !! other = request_counts s !! other) ∧
  ∃ s1, rate_limit_burst client nows s
          = (s1, Ok (replicate (Z.to_nat limit) true ++ [false])%list)
        ∧ ∃ s2, _rate_limit_check client later s1 = (s2, Ok true).
Proof.
  intros Hcfg Hpos Hlen Hsec Hold Hlater. split.
  - intros now pruned. split; [intros t; apply list_elem_of_filter|].
    rewrite (rate_limit_step s client now limit Hcfg). cbn zeta. fold pruned.
    destruct (limit <=? _)%Z; eexists; (split; [reflexivity|]);
      rewrite client_log_insert; (split; [reflexivity|]);
      intros other Hne; cbn [request_counts set_request_counts];
      by rewrite (lookup_insert_ne (request_counts s)).
  - destruct nows as [|now1 rest]; [cbn in Hlen; lia|].
    cbn [length] in Hlen.
    assert (t0 ≤ now1 ≤ t0 + timedelta_seconds 1)%Z as Hnow1
      by (apply Hsec; by left).
    cbn [rate_limit_burst]. unfold bind at 1.
    rewrite (rate_limit_step s client now1 limit Hcfg). cbn zeta.
    rewrite prune_all_old
      by (intros t Ht; specialize (Hold t Ht); lia).
    cbn [length app]. destruct (Z.leb_spec limit (Z.of_nat 0)) as [?|_]; [lia|].
    set (s1 := set_request_counts _ s).
    assert (client_log s1 client = [now1]) as Hlog1
      by (subst s1; apply client_log_insert).
    destruct (rate_limit_burst_fresh client limit rest s1) as (s' & Hrun & Hlog' & Hcfg').
    + exact Hcfg.
    + intros t now Ht Hnow. rewrite Hlog1 in Ht.
      apply list_elem_of_singleton in Ht as ->.
      specialize (Hsec now ltac:(by right)).
      unfold timedelta_seconds, timedelta_minutes in *. lia.
    + intros t now Ht Hnow.
      specialize (Hsec t ltac:(by right)) as Ht0.
      specialize (Hsec now ltac:(by right)).
      unfold timedelta_seconds, timedelta_minutes in *. lia.
    + rewrite Hlog1 in Hrun, Hlog'. cbn [length] in Hrun, Hlog'.
      exists s'. unfold bind, ret. rewrite Hrun. split.
      * do 2 f_equal.
        replace (length rest - Z.to_nat (limit - Z.of_nat 1)) with 1 by lia.
        rewrite Nat.min_l by lia.
        replace (Z.to_nat limit) with (S (Z.to_nat (limit - Z.of_nat 1))) by lia.
        reflexivity.
      * assert (config_getattr (config s') "MAX_REQUESTS_PER_MINUTE" = Ok (CInt limit))
          as Hcfg2 by (rewrite Hcfg'; exact Hcfg).
        rewrite (rate_limit_step s' client later limit Hcfg2). cbn zeta.
        rewrite prune_all_old.
        -- cbn [length]. destruct (Z.leb_spec limit (Z.of_nat 0)) as [?|_]; [lia|].
           eexists; reflexivity.
        -- intros t Ht. rewrite Hlog' in Ht. apply Hlater.
           apply elem_of_cons in Ht as [->|Ht]; [by left|right].
           by apply (subseteq_take (Z.to_nat (limit - Z.of_nat 1)) rest).
Qed.

Lemma rate_limit_sliding_window_witness :
  ∃ s1, rate_limit_burst "10.0.0.7" [1000; 1500; 900000]%Z self_limit_2
          = (s1, Ok [true; true; false])
        ∧ ∃ s2, _rate_limit_check "10.0.0.7" 61000000%Z s1 = (s2, Ok true).
Proof.
  refine (proj2 (rate_limit_sliding_window self_limit_2 "10.0.0.7" 2
                   [1000; 1500; 900000]%Z 1000%Z 61000000%Z _ _ _ _ _ _)).
  - reflexivity.
  - lia.
  - reflexivity.
  - intros t Ht. rewrite !elem_of_cons, elem_of_nil in Ht.
    unfold timedelta_seconds. lia.
  - intros t Ht. vm_compute in Ht. by apply elem_of_nil in Ht.
  - intros t Ht. rewrite !elem_of_cons, elem_of_nil in Ht.
    unfold timedelta_minutes. lia.
Defined.

(** ** Process presence cache *)

(** A successful enumeration replaces the snapshot and its timestamp. *)
Lemma cache_refresh_success s now procs now' :
  _update_running_apps_cache true now (Ok procs) now' s
  = (set_cache (list_to_set (process_names procs)) now' s, Ok tt).
Proof. reflexivity. Qed.

(** C8.  When the process enumeration raises, the refresh returns normally
    and changes nothing: the snapshot and its capture time are the previous
    ones, and the membership test answers as before. *)
Theorem cache_refresh_fail_soft
    (s : Self) (force : bool) (now now' : Z) (e : exn) (name : string) :
  ∃ s', _update_running_apps_cache force now (Raise e) now' s = (s', Ok tt)
        ∧ running_apps_cache s' = running_apps_cache s
        ∧ last_cache_update s' = last_cache_update s
        ∧ is_running name s' = bool_decide (name ∈ running_apps_cache s)
        ∧ s' = s.
Proof.
  exists s. split_and!; try reflexivity.
  unfold _update_running_apps_cache, bind, gets, ret.
  by destruct (negb force && _).
Qed.

(** ** App toggle *)

(** C9.  For a registered app with [closable = False] whose process is in
    the snapshot after the forced refresh, the toggle answers success, running
    and the cannot-close message; the state is the one the refresh left, and no
    command was run and no process started. *)
Theorem app_toggle_non_closable
    (host_run : list event → string → bool)
    (host_popen : list event → string → option string)
    (s : Self) (app_name : string) (app_config : AppConfig)
    (probe1 probe2 : result (list (option string))) (now1 now2 : Z) :
  apps s !! app_name = Some app_config →
  closable app_config = Some false →
  is_running (str_lower (default (exe app_config) (process_name app_config)))
    (_update_running_apps_cache true now1 probe1 now1 s).1 = true →
  ∃ s', app_toggle host_run host_popen app_name probe1 now1 probe2 now2 s
        = (s', Ok (mkToggleResponse true
                     ("cannot be close " ++ str_title app_name) (Some true)))
      ∧ s' = (_update_running_apps_cache true now1 probe1 now1 s).1
      ∧ new_events s s' = []
      ∧ timers s' = timers s
      ∧ active_modifiers s' = active_modifiers s.
Proof.
  intros Happ Hclos Hrun.
  assert (∃ s1, _update_running_apps_cache true now1 probe1 now1 s = (s1, Ok tt)
                ∧ trace s1 = trace s ∧ apps s1 = apps s
                ∧ timers s1 = timers s
                ∧ active_modifiers s1 = active_modifiers s)
    as (s1 & Hupd & Htr & Happs & Hts & Hms).
  { unfold _update_running_apps_cache, bind, gets, ret, modify. cbn [negb andb].
    destruct probe1; eexists; (split; [reflexivity|done]). }
  rewrite Hupd in Hrun. cbn [fst] in Hrun.
  exists s1. split_and!; [|by rewrite Hupd| |done|done].
  - unfold app_toggle, bind at 1, gets at 1. rewrite Happ.
    unfold bind at 1. rewrite Hupd. unfold bind at 1, gets at 1.
    rewrite Hrun, Hclos. reflexivity.
  - unfold new_events. rewrite Htr. apply drop_all.
Qed.

(** ** Volume *)

(** C10.  The level handed to the audio endpoint, when one is, is the input
    clamped to 0..100; when the endpoint does not fail the answer is a success
    whose message shows the clamped value, whatever the input. *)
Theorem set_volume_clamps (value : Z) (fault : audio_fault) :
  (0 ≤ clamp_volume value ≤ 100)%Z
  ∧ ((value < 0)%Z → clamp_volume value = 0%Z)
  ∧ ((100 < value)%Z → clamp_volume value = 100%Z)
  ∧ ((0 ≤ value ≤ 100)%Z → clamp_volume value = value)
  ∧ (∀ level, level ∈ (_set_volume value fault).1 → level = clamp_volume value)
  ∧ (_set_volume value NoFault
     = ([clamp_volume value],
        mkVolumeResponse true
          ("Volume set to " ++ pretty (clamp_volume value) ++ "%"))).
Proof.
  unfold clamp_volume. split_and!; try lia; [|reflexivity].
  intros level. destruct fault; cbn [_set_volume fst];
    rewrite ?list_elem_of_singleton, ?elem_of_nil; [done|tauto|done|done].
Qed.

Lemma app_toggle_non_closable_witness :
  (app_toggle (fun _ _ => true) (fun _ _ => None) "task_manager"
     (Ok [Some "explorer.exe"; None; Some "Taskmgr.exe"]) 5000000%Z
     (Raise (HostError "access denied")) 5600000%Z self_limit_2).2
  = Ok (mkToggleResponse true "cannot be close Task_Manager" (Some true)).
Proof.
  destruct (app_toggle_non_closable (fun _ _ => true) (fun _ _ => None)
              self_limit_2 "task_manager"
              (mkAppConfig "Taskmgr.exe" (Some "taskmgr.exe") "taskmgr" (Some false))
              (Ok [Some "explorer.exe"; None; Some "Taskmgr.exe"])
              (Raise (HostError "access denied")) 5000000%Z 5600000%Z)
    as (s' & Heq & _).
  - vm_compute. reflexivity.
  - reflexivity.
  - vm_compute. reflexivity.
  - rewrite Heq. reflexivity.
Defined.

(** ** Session guard and login *)

(** No [Config] object has an attribute [SESSION_TIMEOUT]: [__init__] sets
    the keys of [DEFAULTS], where the timeout is [SESSION_TIMEOUT_MINUTES]. *)
Lemma config_has_no_SESSION_TIMEOUT base_dir exe_dir playback_1 recording_1 data :
  config_getattr (Config_init base_dir exe_dir playback_1 recording_1 data)
    "SESSION_TIMEOUT"
  = Raise (AttributeError "SESSION_TIMEOUT").
Proof.
  unfold config_getattr, Config_init. cbn [instance_attrs DEFAULTS foldl fst snd].
  repeat (rewrite lookup_insert_ne by done). rewrite lookup_empty.
  reflexivity.
Qed.

Lemma config_default_SESSION_TIMEOUT_MINUTES base_dir exe_dir playback_1 recording_1 :
  config_getattr (Config_init base_dir exe_dir playback_1 recording_1 ∅)
    "SESSION_TIMEOUT_MINUTES"
  = Ok (CInt 30).
Proof. reflexivity. Qed.

(** [_rate_limit_check] leaves the configuration and the enabled flag alone. *)
Lemma rate_limit_check_config client now s :
  config (_rate_limit_check client now s).1 = config s.
Proof.
  unfold _rate_limit_check, bind, gets, modify, lift, ret.
  cbn [config set_request_counts].
  destruct (config_getattr _ _) as [v|]; [|reflexivity].
  cbn. destruct (cfg_as_int v); [|reflexivity].
  cbn. by destruct (_ <=? _)%Z.
Qed.

(** C2 (what the code does).  With any configuration file, [before_request]
    never expires a session and never writes [last_activity]: whenever it
    returns, the session is the one it received and the response is not the
    redirect to the login page; and for a request that passes the enabled test
    and the rate limiter with a session that has both [logged_in] and
    [last_activity], reading [self.config.SESSION_TIMEOUT] raises
    [AttributeError]. *)
Theorem before_request_never_expires
    (s : Self) (req : Request) (session : gmap string sval)
    (now_rl now_chk now_set : Z)
    (base_dir exe_dir playback_1 recording_1 : string)
    (data : gmap string cfgval) :
  config s = Config_init base_dir exe_dir playback_1 recording_1 data →
  (∀ s' session' resp,
     before_request req session now_rl now_chk now_set s
       = (s', Ok (session', resp)) →
     session' = session ∧ resp ≠ Some (Redirect "login"))
  ∧ (∀ s1 b t,
       app_enabled s = true →
       _rate_limit_check (remote_addr req) now_rl s = (s1, Ok true) →
       session !! "logged_in" = Some (SBool b) →
       session !! "last_activity" = Some (SIso t) →
       before_request req session now_rl now_chk now_set s
         = (s1, Raise (AttributeError "SESSION_TIMEOUT"))).
Proof.
  intros Hcfg.
  assert (∀ s1, config s1 = config s →
                config_getattr (config s1) "SESSION_TIMEOUT"
                = Raise (AttributeError "SESSION_TIMEOUT")) as Hattr.
  { intros s1 ->. rewrite Hcfg. apply config_has_no_SESSION_TIMEOUT. }
  split.
  - intros s' session' resp. unfold before_request, bind at 1, gets at 1.
    destruct (negb (app_enabled s) && _).
    { unfold ret. intros [= <- <- <-]. done. }
    unfold bind at 1.
    pose proof (rate_limit_check_config (remote_addr req) now_rl s) as Hc.
    destruct (_rate_limit_check (remote_addr req) now_rl s) as [s1 [allowed|e]];
      [|done].
    cbn [fst] in Hc. destruct allowed; cbn [negb].
    + destruct (bool_decide _ && bool_decide _).
      * unfold bind at 1, lift at 1.
        destruct (session_last_activity session); [|done].
        unfold bind at 1, gets at 1. unfold bind at 1, lift at 1.
        rewrite (Hattr s1 Hc). done.
      * unfold ret. intros [= <- <- <-]. done.
    + unfold ret. intros [= <- <- <-]. done.
  - intros s1 b t Hen Hrl Hin Hla.
    unfold before_request, bind at 1, gets at 1. rewrite Hen. cbn [negb andb].
    unfold bind at 1. rewrite Hrl. cbn [negb].
    rewrite Hin, Hla.
    rewrite !bool_decide_eq_true_2 by (by eexists). cbn [andb].
    unfold bind at 1, lift at 1, session_last_activity. rewrite Hla.
    unfold bind at 1, gets at 1. unfold bind at 1, lift at 1.
    rewrite (Hattr s1); [reflexivity|].
    pose proof (rate_limit_check_config (remote_addr req) now_rl s) as Hc.
    by rewrite Hrl in Hc.
Qed.

Lemma before_request_never_expires_witness :
  (before_request status_request session_with_activity
     2000000%Z 2000001%Z 2000002%Z self_limit_2).2
  = Raise (AttributeError "SESSION_TIMEOUT").
Proof.
  destruct (before_request_never_expires self_limit_2 status_request
              session_with_activity 2000000%Z 2000001%Z 2000002%Z
              "C:\remote" "C:\remote" "Speakers" "Microphone"
              {[ "MAX_REQUESTS_PER_MINUTE" := CInt 2 ]} eq_refl)
    as [_ Hraise].
  rewrite (Hraise (_rate_limit_check "10.0.0.7" 2000000%Z self_limit_2).1
             true 1000000%Z); reflexivity.
Defined.

(** C3 (what the code does).  A successful login writes [logged_in] and
    nothing else: a session that had no [last_activity] still has none, so
    [before_request] skips the expiry test for it at every later time, with
    any configuration: when it returns, it returns the session unchanged and
    either lets the request through or answers 503 or 429. *)
Theorem login_omits_last_activity
    (s : Self) (req : Request) (session : gmap string sval) (u p : string) :
  method req = "POST" →
  config_getattr (config s) "USERNAME" = Ok (CStr u) →
  form req !! "username" = Some u →
  config_getattr (config s) "PASSWORD" = Ok (CStr p) →
  form req !! "password" = Some p →
  session !! "last_activity" = None →
  ∃ session',
    login req session s = (s, Ok (session', Redirect "index"))
    ∧ session' = <["logged_in" := SBool true]> session
    ∧ session_logged_in session' = true
    ∧ session' !! "last_activity" = None
    ∧ ∀ req' s' now_rl now_chk now_set s'' r,
        before_request req' session' now_rl now_chk now_set s' = (s'', Ok r) →
        r = (session', None) ∨ ∃ status err, r = (session', Some (Json status err)).
Proof.
  intros Hm Hu Hfu Hp Hfp Hla. eexists. split_and!; [|reflexivity|..].
  - unfold login. rewrite bool_decide_eq_true_2 by done.
    unfold bind at 1, gets at 1. unfold bind at 1, lift at 1. rewrite Hu, Hfu.
    cbn [form_matches]. rewrite bool_decide_eq_true_2 by done.
    unfold bind at 1, lift at 1. rewrite Hp, Hfp.
    cbn [form_matches]. rewrite bool_decide_eq_true_2 by done.
    reflexivity.
  - unfold session_logged_in. by rewrite lookup_insert_eq.
  - by rewrite lookup_insert_ne.
  - intros req' s' now_rl now_chk now_set s'' r.
    unfold before_request, bind at 1, gets at 1.
    destruct (negb (app_enabled s') && _).
    { unfold ret. intros [= <- <-]. right. eauto. }
    unfold bind at 1.
    destruct (_rate_limit_check _ _ s') as [s1 [[|]|e]]; [| |done]; cbn [negb].
    + rewrite (bool_decide_eq_false_2 (is_Some (_ !! "last_activity"))).
      * rewrite andb_false_r. unfold ret. intros [= <- <-]. by left.
      * rewrite lookup_insert_ne by done. rewrite Hla. by intros [? ?].
    + unfold ret. intros [= <- <-]. right. eauto.
Qed.

Lemma login_omits_last_activity_witness :
  login login_request ∅ self_limit_2
  = (self_limit_2, Ok ({[ "logged_in" := SBool true ]}, Redirect "index"))
  ∧ (before_request status_request {[ "logged_in" := SBool true ]}
       (365 * 86400000000)%Z (365 * 86400000000)%Z (365 * 86400000000)%Z
       self_limit_2).2
    = Ok ({[ "logged_in" := SBool true ]}, None).
Proof.
  destruct (login_omits_last_activity self_limit_2 login_request ∅
              "admin" "password")
    as (session' & Hlogin & -> & _ & _ & _); try reflexivity.
  split; [exact Hlogin|].
  vm_compute. reflexivity.
Defined.

(** ** Modifier state machine *)

Lemma known_modifier m : m ∈ dom MODIFIER_MAP → ∃ k, MODIFIER_MAP !! m = Some k.
Proof. intros Hm. by apply elem_of_dom in Hm as [k Hk]; exists k. Qed.

Lemma cancel_run s : cancel_modifier_key_timer s = (cancelled s, Ok tt).
Proof.
  unfold cancelled, cancel_modifier_key_timer, bind, gets, modify, ret.
  destruct (modifier_key_timer s) as [id|]; [|reflexivity].
  by destruct (timer_is_alive (timers s) id).
Qed.

Lemma cancelled_fields s :
  active_modifiers (cancelled s) = active_modifiers s
  ∧ active_modifier (cancelled s) = active_modifier s
  ∧ nircmd (cancelled s) = nircmd s
  ∧ modifier_key_timer (cancelled s) = modifier_key_timer s
  ∧ trace (cancelled s) = (trace s ++ cancel_events s)%list
  ∧ length (timers (cancelled s)) = length (timers s).
Proof.
  unfold cancelled, cancel_events, cancel_modifier_key_timer, bind, gets, modify, ret.
  destruct (modifier_key_timer s) as [id|] eqn:Hk; cbn [fst].
  - destruct (timer_is_alive (timers s) id); cbn [fst];
      rewrite ?app_nil_r; split_and!; try done.
    unfold timer_cancel. cbn [timers emit set_timers]. apply length_alter.
  - rewrite app_nil_r. done.
Qed.

Lemma live_cancelled s id :
  live (cancelled s) id ↔ live s id ∧ modifier_key_timer s ≠ Some id.
Proof.
  unfold live, cancelled, cancel_modifier_key_timer, bind, gets, modify, ret.
  destruct (modifier_key_timer s) as [id0|] eqn:Hk; cbn [fst];
    [|intuition congruence].
  destruct (timer_is_alive (timers s) id0) eqn:Halive; cbn [fst].
  - unfold timer_cancel. cbn [timers emit set_timers].
    destruct (decide (id0 = id)) as [->|Hne].
    + rewrite list_lookup_alter_eq.
      destruct (timers s !! id) as [[]|]; cbn; intuition congruence.
    + rewrite list_lookup_alter_ne by done. intuition congruence.
  - split; [|tauto]. intros Hlive. split; [done|]. intros [= ->].
    unfold timer_is_alive in Halive. by rewrite Hlive in Halive.
Qed.

Lemma emit_all_fields evs :
  ∀ s,
  trace (emit_all evs s) = (trace s ++ evs)%list
  ∧ active_modifiers (emit_all evs s) = active_modifiers s
  ∧ active_modifier (emit_all evs s) = active_modifier s
  ∧ nircmd (emit_all evs s) = nircmd s
  ∧ modifier_key_timer (emit_all evs s) = modifier_key_timer s
  ∧ timers (emit_all evs s) = timers s.
Proof.
  induction evs as [|e evs IH]; intros s.
  - cbn [emit_all foldl]. by rewrite app_nil_r.
  - change (emit_all (e :: evs) s) with (emit_all evs (emit e s)).
    destruct (IH (emit e s)) as (-> & -> & -> & -> & -> & ->).
    cbn [trace emit]. by rewrite <- app_assoc.
Qed.

Lemma release_each_run host_run ms :
  ∀ s,
  Forall (fun m => m ∈ dom MODIFIER_MAP) ms →
  release_each host_run ms s
  = (emit_all (EExec <$> ((fun m => sendkey_command (nircmd s) m "up") <$> ms)) s,
     Ok tt).
Proof.
  induction ms as [|m ms IH]; intros s Hknown; [reflexivity|].
  apply Forall_cons in Hknown as [Hm Hms].
  destruct (known_modifier m Hm) as [k Hk].
  cbn [release_each]. unfold bind at 1, gets at 1.
  unfold bind at 1, modifier_map_get. rewrite Hk. unfold ret at 1.
  unfold bind at 1, _execute_command, bind, gets, modify, ret.
  rewrite (IH _ Hms). cbn [nircmd emit fmap list_fmap emit_all foldl].
  unfold sendkey_command at 2. rewrite Hk. reflexivity.
Qed.

Lemma toggle_run host_run m s :
  m ∈ dom MODIFIER_MAP →
  _handle_modifier_press host_run m s
  = (toggled m s,
     Ok (mkActionResponse true
           (str_capitalize m ++ (if bool_decide (m ∈ active_modifiers s)
                                 then " released." else " is active."))
           (elements (active_modifiers (toggled m s))))).
Proof.
  intros Hm. destruct (known_modifier m Hm) as [k Hk].
  destruct (cancelled_fields s) as (Hms & _ & Hnc & _).
  unfold _handle_modifier_press, toggled. unfold bind at 1. rewrite cancel_run.
  unfold bind at 1, gets at 1. unfold bind at 1, gets at 1.
  rewrite Hms, Hnc. unfold sendkey_command. rewrite Hk. cbn [default].
  destruct (bool_decide (m ∈ active_modifiers s));
    cbv beta iota delta [bind gets modify modifier_map_get _execute_command ret];
    rewrite Hk; cbv beta iota;
    cbn [active_modifiers emit set_active_modifiers];
    (destruct (bool_decide (_ ≠ ∅)); reflexivity).
Qed.

Lemma clear_run host_run s :
  active_modifiers s ⊆ dom MODIFIER_MAP →
  _clear_modifier_state host_run s = (cleared s, Ok tt).
Proof.
  intros Hknown. unfold _clear_modifier_state, cleared, release_commands.
  unfold bind at 1, gets at 1. unfold bind at 1.
  rewrite release_each_run.
  - unfold bind at 1. rewrite cancel_run. reflexivity.
  - apply Forall_forall. intros m Hin. apply Hknown. by apply elem_of_elements.
Qed.

Lemma started_fields s :
  active_modifiers (started s) = active_modifiers s
  ∧ active_modifier (started s) = active_modifier s
  ∧ nircmd (started s) = nircmd s
  ∧ modifier_key_timer (started s) = Some (length (timers s))
  ∧ timers (started s) = (timers s ++ [Pending])%list
  ∧ trace (started s) = (trace s ++ [ETimerStart (length (timers s))])%list.
Proof. done. Qed.

(** The live timers after a new one was started. *)
Lemma live_started s id :
  live (started s) id ↔ live s id ∨ id = length (timers s).
Proof.
  unfold live. cbn [timers started emit set_modifier_key_timer set_timers].
  split.
  - intros H. apply lookup_app_Some in H as [H|[Hge H]]; [by left|right].
    apply list_lookup_singleton_Some in H as [H _]. lia.
  - intros [H| ->].
    + by apply lookup_app_l_Some.
    + rewrite lookup_app_r by done. by rewrite Nat.sub_diag.
Qed.

Lemma live_lt s id : live s id → id < length (timers s).
Proof. unfold live. apply lookup_lt_Some. Qed.

Lemma elem_of_live_timers s id : id ∈ live_timers s ↔ live s id.
Proof.
  unfold live_timers, live. rewrite elem_of_list_to_set, list_elem_of_filter.
  rewrite elem_of_seq. split; [tauto|].
  intros H. split; [done|]. apply lookup_lt_Some in H. lia.
Qed.

Lemma toggled_fields m s :
  let held := bool_decide (m ∈ active_modifiers s) in
  let ms' := if held then active_modifiers s ∖ {[m]} else active_modifiers s ∪ {[m]} in
  active_modifiers (toggled m s) = ms'
  ∧ active_modifier (toggled m s) = active_modifier s
  ∧ nircmd (toggled m s) = nircmd s
  ∧ trace (toggled m s)
    = (trace s ++ cancel_events s
         ++ [if held then ESetRemove m else ESetAdd m;
             EExec (sendkey_command (nircmd s) m (if held then "up" else "down"))]
         ++ (if bool_decide (ms' ≠ ∅)
             then [ETimerStart (length (timers s))] else []))%list
  ∧ (∀ id, live (toggled m s) id ↔
           (live s id ∧ modifier_key_timer s ≠ Some id)
           ∨ (ms' ≠ ∅ ∧ id = length (timers s)))
  ∧ (ms' ≠ ∅ → modifier_key_timer (toggled m s) = Some (length (timers s))).
Proof.
  intros held ms'.
  destruct (cancelled_fields s) as (Hms & Ham & Hnc & Hkt & Htr & Hlen).
  unfold toggled. fold held. fold ms'.
  destruct (bool_decide (ms' ≠ ∅)) eqn:Hne.
  - apply bool_decide_eq_true in Hne.
    cbn [started active_modifiers active_modifier nircmd trace timers
         modifier_key_timer emit set_modifier_key_timer set_timers
         set_active_modifiers].
    rewrite Htr, Hlen, <- !app_assoc. split_and!; try done.
    intros id. unfold live.
    cbn [started timers emit set_modifier_key_timer set_timers set_active_modifiers].
    pose proof (live_cancelled s id) as Hlc. unfold live in Hlc.
    rewrite <- Hlc. split.
    + intros H. apply lookup_app_Some in H as [H|[Hge H]]; [by left|right].
      apply list_lookup_singleton_Some in H as [H _]. split; [done|lia].
    + intros [H|[_ ->]].
      * by apply lookup_app_l_Some.
      * rewrite lookup_app_r by lia. by rewrite Hlen, Nat.sub_diag.
  - apply bool_decide_eq_false in Hne.
    cbn [active_modifiers active_modifier nircmd trace timers
         modifier_key_timer emit set_active_modifiers].
    rewrite Htr, app_nil_r, <- !app_assoc. split_and!; try done.
    intros id. unfold live.
    cbn [timers emit set_active_modifiers].
    pose proof (live_cancelled s id) as Hlc. unfold live in Hlc.
    rewrite <- Hlc. tauto.
Qed.

Lemma cancelled_emit_all evs s :
  cancel_events (emit_all evs s) = cancel_events s
  ∧ ∀ id, live (cancelled (emit_all evs s)) id
          ↔ live s id ∧ modifier_key_timer s ≠ Some id.
Proof.
  destruct (emit_all_fields evs s) as (_ & _ & _ & _ & Hkt & Hts).
  split.
  - unfold cancel_events. by rewrite Hkt, Hts.
  - intros id. rewrite live_cancelled. unfold live. by rewrite Hkt, Hts.
Qed.

Lemma cleared_fields s :
  active_modifiers (cleared s) = ∅
  ∧ active_modifier (cleared s) = active_modifier s
  ∧ nircmd (cleared s) = nircmd s
  ∧ modifier_key_timer (cleared s) = None
  ∧ trace (cleared s)
    = (trace s ++ (EExec <$> release_commands s) ++ cancel_events s
         ++ [ESetClear])%list
  ∧ ∀ id, live (cleared s) id ↔ live s id ∧ modifier_key_timer s ≠ Some id.
Proof.
  set (s1 := emit_all (EExec <$> release_commands s) s).
  destruct (emit_all_fields (EExec <$> release_commands s) s)
    as (Htr1 & _ & Ham1 & Hnc1 & _ & _).
  destruct (cancelled_fields s1) as (_ & Ham & Hnc & _ & Htr & _).
  destruct (cancelled_emit_all (EExec <$> release_commands s) s) as (Hce & Hlive).
  unfold cleared. fold s1.
  cbn [active_modifiers active_modifier nircmd modifier_key_timer trace
       set_modifier_key_timer emit set_active_modifiers].
  split_and!; try done.
  - by rewrite Ham.
  - by rewrite Hnc.
  - rewrite Htr. unfold s1. rewrite Htr1, Hce, <- !app_assoc. done.
Qed.

(** Clearing a state whose set is empty and whose timer attribute is
    [None] only marks the write to the set. *)
Lemma cleared_idle s :
  active_modifiers s = ∅ → modifier_key_timer s = None →
  cleared s = emit ESetClear s.
Proof.
  intros Hms Hkt. unfold cleared, release_commands. rewrite Hms, elements_empty.
  cbn [fmap list_fmap emit_all foldl].
  unfold cancelled, cancel_modifier_key_timer, bind, gets, ret. rewrite Hkt.
  cbn [fst]. destruct s. cbn in *. by subst.
Qed.

Lemma host_calls_app tr1 tr2 :
  host_calls (tr1 ++ tr2) = (host_calls tr1 ++ host_calls tr2)%list.
Proof. apply List.filter_app. Qed.

Lemma clear_repeatedly_idle host_run n :
  ∀ s,
  active_modifiers s = ∅ → modifier_key_timer s = None →
  ∃ s', clear_repeatedly host_run n s = (s', Ok tt)
        ∧ modifier_view s' = modifier_view s.
Proof.
  induction n as [|n IH]; intros s Hms Hkt; [by exists s|].
  cbn [clear_repeatedly]. unfold bind at 1.
  rewrite clear_run by (rewrite Hms; apply empty_subseteq).
  rewrite (cleared_idle s Hms Hkt).
  destruct (IH (emit ESetClear s) Hms Hkt) as (s' & Hrun & Hview).
  exists s'. split; [done|]. rewrite Hview. unfold modifier_view.
  cbn [active_modifiers modifier_key_timer timers trace emit].
  rewrite host_calls_app. cbn. by rewrite app_nil_r.
Qed.

(** C7.  On an empty modifier set [_clear_modifier_state] returns normally,
    runs no command, and leaves the set empty and the timer attribute [None];
    calling it again any number of times returns normally each time and
    changes neither the set, the timer attribute, the timer objects nor the
    calls made to the host. *)
Theorem force_clear_idempotent
    (host_run : list event → string → bool) (s : Self) (n : nat) :
  active_modifiers s = ∅ →
  ∃ s1, _clear_modifier_state host_run s = (s1, Ok tt)
        ∧ commands (new_events s s1) = []
        ∧ active_modifiers s1 = ∅
        ∧ modifier_key_timer s1 = None
        ∧ ∃ sn, clear_repeatedly host_run (S n) s = (sn, Ok tt)
                ∧ modifier_view sn = modifier_view s1.
Proof.
  intros Hms.
  assert (_clear_modifier_state host_run s = (cleared s, Ok tt)) as Hrun
    by (apply clear_run; rewrite Hms; apply empty_subseteq).
  destruct (cleared_fields s) as (Hms1 & _ & _ & Hkt1 & Htr1 & _).
  exists (cleared s). split_and!; try done.
  - unfold new_events. rewrite Htr1, drop_app_length.
    unfold release_commands. rewrite Hms, elements_empty. cbn [fmap list_fmap app].
    unfold cancel_events.
    destruct (modifier_key_timer s) as [id|]; [|done].
    by destruct (timer_is_alive _ _).
  - cbn [clear_repeatedly]. unfold bind at 1. rewrite Hrun.
    apply clear_repeatedly_idle; done.
Qed.

Lemma force_clear_idempotent_witness :
  modifier_key_timer self_alt_released = Some 0
  ∧ ∃ s1, _clear_modifier_state (fun _ _ => false) self_alt_released = (s1, Ok tt)
          ∧ commands (new_events self_alt_released s1) = []
          ∧ active_modifiers s1 = ∅
          ∧ modifier_key_timer s1 = None
          ∧ ∃ sn, clear_repeatedly (fun _ _ => false) 4 self_alt_released = (sn, Ok tt)
                  ∧ modifier_view sn = modifier_view s1.
Proof.
  split; [reflexivity|].
  apply (force_clear_idempotent (fun _ _ => false) self_alt_released 3).
  vm_compute. reflexivity.
Defined.

Lemma modifier_map_dom m :
  m ∈ dom MODIFIER_MAP ↔ m = "alt" ∨ m = "ctrl" ∨ m = "shift".
Proof.
  unfold MODIFIER_MAP. rewrite !dom_insert_L, dom_empty_L.
  rewrite !elem_of_union, !elem_of_singleton, elem_of_empty. tauto.
Qed.

(** [self.active_modifier] is [None] at construction and no method assigns
    it, so the key handler always takes its plain branch: one
    [sendkeypress] of the key alone, the set and the timer untouched. *)
Lemma key_press_plain host_run key msg s :
  truthy_str (active_modifier s) = false →
  let command := sendkeypress_command (nircmd s) key in
  let ok := host_run (trace s) command in
  _handle_standard_key_press host_run key msg s
  = (emit (EExec command) s,
     Ok (mkActionResponse ok (if ok then "Sent " ++ msg else "Command failed")
           (elements (active_modifiers s)))).
Proof.
  intros Ham. unfold _handle_standard_key_press.
  unfold bind at 1, gets at 1. rewrite Ham. reflexivity.
Qed.

(** C1 (what the code does).  From a fresh object, pressing Alt and then
    Delete runs [sendkey alt down] and then a [sendkeypress] of Delete alone;
    Alt stays in the set with its timer live, the answer lists it as active,
    and the next press of Alt releases it. *)
Theorem alt_then_delete_keeps_alt
    (host_run : list event → string → bool) (cfg : Config) (home : string) :
  let s0 := PCRemoteControl_init cfg home in
  ∃ s1 r1 s2 r2 s3 r3,
    _handle_modifier_press host_run "alt" s0 = (s1, Ok r1)
    ∧ _handle_standard_key_press host_run "delete" "Delete" s1 = (s2, Ok r2)
    ∧ _handle_modifier_press host_run "alt" s2 = (s3, Ok r3)
    ∧ commands (trace s1) = [sendkey_command (nircmd s0) "alt" "down"]
    ∧ commands (new_events s1 s2) = [sendkeypress_command (nircmd s0) "delete"]
    ∧ active_modifiers s1 = {["alt"]}
    ∧ active_modifiers s2 = {["alt"]}
    ∧ activeModifiers r2 = ["alt"]
    ∧ modifier_key_timer s2 = Some 0
    ∧ live s2 0
    ∧ message r3 = "Alt released."
    ∧ active_modifiers s3 = ∅.
Proof.
  intros s0.
  assert ("alt" ∈ dom MODIFIER_MAP) as Halt by (apply modifier_map_dom; tauto).
  pose proof (toggle_run host_run "alt" s0 Halt) as H1.
  set (s1 := toggled "alt" s0) in *.
  assert (truthy_str (active_modifier s1) = false) as Ham by reflexivity.
  pose proof (key_press_plain host_run "delete" "Delete" s1 Ham) as H2.
  cbv zeta in H2.
  set (s2 := emit _ s1) in *.
  pose proof (toggle_run host_run "alt" s2 Halt) as H3.
  do 6 eexists. split_and!; [exact H1|exact H2|exact H3|..];
    vm_compute; reflexivity.
Qed.

(** Toggling modifiers that are not held, one after the other, adds each
    of them to the set. *)
Lemma toggle_each_adds host_run ms :
  ∀ s,
  Forall (fun x => x ∈ dom MODIFIER_MAP ∧ x ∉ active_modifiers s) ms →
  NoDup ms →
  ∃ sN rs, toggle_each host_run ms s = (sN, Ok rs)
           ∧ active_modifiers sN = active_modifiers s ∪ list_to_set ms
           ∧ length rs = length ms.
Proof.
  induction ms as [|x ms IH]; intros s Hms Hnd.
  - exists s, []. split_and!; [done| |done].
    rewrite list_to_set_nil. set_solver.
  - apply Forall_cons in Hms as [[Hx Hnx] Hms].
    apply NoDup_cons in Hnd as [Hnin Hnd].
    destruct (toggled_fields x s) as (Hact & _).
    rewrite (bool_decide_eq_false_2 _ Hnx) in Hact.
    destruct (IH (toggled x s)) as (sN & rs & Hrun & HactN & Hlen); [|done|].
    { apply Forall_forall. intros y Hy. rewrite Forall_forall in Hms.
      destruct (Hms y Hy) as [Hky Hny]. split; [done|].
      rewrite Hact. set_solver. }
    eexists sN, (_ :: rs). cbn [toggle_each]. unfold bind at 1.
    rewrite (toggle_run host_run x s Hx). unfold bind, ret. rewrite Hrun.
    split_and!; [reflexivity| |by cbn; rewrite Hlen].
    rewrite HactN, Hact, list_to_set_cons. set_solver.
Qed.

(** C5.  For a modifier of [MODIFIER_MAP]: a toggle always answers success
    with the elements of the resulting set; when the modifier was absent it is
    added and the message is the "is active" one, when it was present it is
    removed and the message is the "released" one; a second toggle of the same
    modifier restores the set; and toggling [N] distinct modifiers that are
    not held makes the set [N] larger, so from the empty set its size is [N]. *)
Theorem toggle_modifier_involution
    (host_run : list event → string → bool) (s : Self) (m : string)
    (ms : list string) :
  m ∈ dom MODIFIER_MAP →
  Forall (fun x => x ∈ dom MODIFIER_MAP ∧ x ∉ active_modifiers s) ms →
  NoDup ms →
  (∃ s1 r1,
     _handle_modifier_press host_run m s = (s1, Ok r1)
     ∧ success r1 = true
     ∧ activeModifiers r1 = elements (active_modifiers s1)
     ∧ (m ∉ active_modifiers s →
        active_modifiers s1 = active_modifiers s ∪ {[m]}
        ∧ m ∈ active_modifiers s1
        ∧ message r1 = str_capitalize m ++ " is active.")
     ∧ (m ∈ active_modifiers s →
        active_modifiers s1 = active_modifiers s ∖ {[m]}
        ∧ (m ∉ active_modifiers s1)
        ∧ message r1 = str_capitalize m ++ " released.")
     ∧ ∃ s2 r2,
         _handle_modifier_press host_run m s1 = (s2, Ok r2)
         ∧ active_modifiers s2 = active_modifiers s
         ∧ activeModifiers r2 = elements (active_modifiers s2))
  ∧ (∃ sN rs,
       toggle_each host_run ms s = (sN, Ok rs)
       ∧ size (active_modifiers sN) = size (active_modifiers s) + length ms
       ∧ (active_modifiers s = ∅ → size (active_modifiers sN) = length ms)).
Proof.
  intros Hm Hms Hnd. split.
  - destruct (toggled_fields m s) as (Hact & _).
    destruct (toggled_fields m (toggled m s)) as (Hact2 & _).
    eexists _, _. split; [apply (toggle_run host_run m s Hm)|].
    cbn [success activeModifiers message]. split_and!; try done.
    + intros Hnin. rewrite (bool_decide_eq_false_2 _ Hnin) in Hact |- *.
      rewrite Hact. split_and!; [done|set_solver|done].
    + intros Hin. rewrite (bool_decide_eq_true_2 _ Hin) in Hact |- *.
      rewrite Hact. split_and!; [done|set_solver|done].
    + eexists _, _. split; [apply (toggle_run host_run m _ Hm)|].
      cbn [activeModifiers]. split; [|done].
      rewrite Hact2, Hact.
      destruct (decide (m ∈ active_modifiers s)) as [Hin|Hnin].
      * rewrite (bool_decide_eq_true_2 _ Hin).
        rewrite bool_decide_eq_false_2 by set_solver.
        apply set_eq. intros x. rewrite elem_of_union, elem_of_difference,
          elem_of_singleton.
        destruct (decide (x = m)) as [->|]; tauto.
      * rewrite (bool_decide_eq_false_2 _ Hnin).
        rewrite bool_decide_eq_true_2 by set_solver.
        set_solver.
  - destruct (toggle_each_adds host_run ms s Hms Hnd) as (sN & rs & Hrun & Hact & _).
    assert (size (active_modifiers sN) = size (active_modifiers s) + length ms)
      as Hsize.
    { rewrite Hact, size_union, size_list_to_set by
        (try done; intros x Hx Hx'; apply elem_of_list_to_set in Hx';
         rewrite Forall_forall in Hms; by destruct (Hms x Hx')).
      done. }
    exists sN, rs. split_and!; [done|done|].
    intros Hempty. by rewrite Hsize, Hempty, size_empty.
Qed.

Lemma toggle_modifier_involution_witness :
  ∃ sN rs,
    toggle_each (fun _ _ => true) ["alt"; "ctrl"; "shift"] self_limit_2 = (sN, Ok rs)
    ∧ size (active_modifiers sN) = 3.
Proof.
  destruct (toggle_modifier_involution (fun _ _ => true) self_limit_2 "shift"
              ["alt"; "ctrl"; "shift"])
    as (_ & sN & rs & Hrun & _ & Hsize).
  - apply modifier_map_dom. tauto.
  - repeat (apply Forall_cons; split;
            [split; [apply modifier_map_dom; tauto|apply not_elem_of_empty]|]).
    apply Forall_nil_2.
  - repeat (apply NoDup_cons; split;
            [rewrite ?elem_of_cons, elem_of_nil; intuition discriminate|]).
    apply NoDup_nil_2.
  - exists sN, rs. split; [exact Hrun|]. apply Hsize. reflexivity.
Defined.

(** *** The invariant *)

Lemma init_inv cfg home : modifier_inv (PCRemoteControl_init cfg home).
Proof.
  split; unfold live; cbn [PCRemoteControl_init active_modifiers timers].
  - split; [done|]. by intros [id Hid].
  - by intros i j Hi.
  - by intros id Hid.
  - apply empty_subseteq.
Qed.

(** The invariant reads the set, the timer objects and the timer attribute
    only. *)
Lemma inv_ext s s' :
  active_modifiers s' = active_modifiers s →
  timers s' = timers s →
  modifier_key_timer s' = modifier_key_timer s →
  modifier_inv s → modifier_inv s'.
Proof.
  intros Hms Hts Hkt [H1 H2 H3 H4].
  split; unfold live in *; rewrite ?Hms, ?Hts, ?Hkt; done.
Qed.

(** A state without live timers and with an empty set. *)
Lemma inv_idle s :
  active_modifiers s = ∅ → (∀ id, ¬ live s id) → modifier_inv s.
Proof.
  intros Hms Hno. split.
  - rewrite Hms. split; [done|]. intros [id Hid]. by destruct (Hno id).
  - intros i j Hi. by destruct (Hno i).
  - intros id Hid. by destruct (Hno id).
  - rewrite Hms. apply empty_subseteq.
Qed.

Lemma cancel_before_execs alive cmds rest :
  cancel_before alive ((EExec <$> cmds) ++ rest) = cancel_before alive rest.
Proof. induction cmds as [|c cmds IH]; [done|exact IH]. Qed.

(** Under the invariant, no timer is live once the cancellation has run. *)
Lemma cancel_before_cancel_events s rest :
  (∀ id, live s id → modifier_key_timer s = Some id) →
  cancel_before (live_timers s) (cancel_events s ++ rest) = cancel_before ∅ rest.
Proof.
  intros Href. unfold cancel_events.
  destruct (modifier_key_timer s) as [id0|] eqn:Hkt.
  - destruct (timer_is_alive (timers s) id0) eqn:Halive; cbn [app cancel_before].
    + f_equal. apply elem_of_equiv_empty_L. intros id.
      rewrite elem_of_difference, elem_of_live_timers, elem_of_singleton.
      intros [Hlive Hne]. apply Href in Hlive. congruence.
    + f_equal. apply elem_of_equiv_empty_L. intros id.
      rewrite elem_of_live_timers. intros Hlive.
      pose proof (Href id Hlive) as [= ->].
      unfold timer_is_alive in Halive. unfold live in Hlive.
      by rewrite Hlive in Halive.
  - cbn [app]. f_equal. apply elem_of_equiv_empty_L. intros id.
    rewrite elem_of_live_timers. intros Hlive. by apply Href in Hlive.
Qed.

Lemma new_events_app s s' evs :
  trace s' = (trace s ++ evs)%list → new_events s s' = evs.
Proof. intros Htr. unfold new_events. rewrite Htr. apply drop_app_length. Qed.

Lemma toggle_preserves_inv m s :
  modifier_inv s → m ∈ dom MODIFIER_MAP →
  modifier_inv (toggled m s)
  ∧ cancel_before (live_timers s) (new_events s (toggled m s)) = true.
Proof.
  intros [Hiff Hone Href Hknown] Hm.
  destruct (toggled_fields m s) as (Hact & _ & _ & Htr & Hlive & Hkt).
  assert (∀ id, live (toggled m s) id
                ↔ active_modifiers (toggled m s) ≠ ∅ ∧ id = length (timers s))
    as Hlive'.
  { intros id. rewrite Hlive, Hact. split; [|tauto].
    intros [[Hl Hne]|H]; [|done]. by destruct Hne; apply Href. }
  split.
  - split.
    + split.
      * intros Hne. exists (length (timers s)). by apply Hlive'.
      * intros [id Hid]. by apply Hlive' in Hid as [? _].
    + intros i j Hi Hj. apply Hlive' in Hi as [_ ->]. by apply Hlive' in Hj as [_ ->].
    + intros id Hid. apply Hlive' in Hid as [Hne ->]. apply Hkt.
      by rewrite <- Hact.
    + rewrite Hact. destruct (bool_decide _); set_solver.
  - rewrite (new_events_app _ _ _ Htr).
    rewrite cancel_before_cancel_events by done.
    destruct (bool_decide (m ∈ active_modifiers s));
      cbn [app cancel_before]; rewrite bool_decide_eq_true_2 by done;
      cbn [andb]; destruct (bool_decide _); cbn [app cancel_before];
      rewrite ?bool_decide_eq_true_2 by done; done.
Qed.

Lemma clear_preserves_inv s :
  modifier_inv s →
  modifier_inv (cleared s)
  ∧ cancel_before (live_timers s) (new_events s (cleared s)) = true.
Proof.
  intros [Hiff Hone Href Hknown].
  destruct (cleared_fields s) as (Hact & _ & _ & Hkt & Htr & Hlive).
  split.
  - apply inv_idle; [done|]. intros id. rewrite Hlive.
    intros [Hl Hne]. by destruct Hne; apply Href.
  - rewrite (new_events_app _ _ _ Htr), cancel_before_execs.
    rewrite cancel_before_cancel_events by done.
    cbn [cancel_before]. by rewrite bool_decide_eq_true_2.
Qed.

Lemma modifier_keys_of_run ms :
  ∀ s, Forall (fun m => m ∈ dom MODIFIER_MAP) ms →
       ∃ ks, modifier_keys_of ms s = (s, Ok ks).
Proof.
  induction ms as [|m ms IH]; intros s Hms; [by exists []|].
  apply Forall_cons in Hms as [Hm Hms].
  destruct (known_modifier m Hm) as [k Hk].
  destruct (IH s Hms) as [ks Hks].
  exists (k :: ks). cbn [modifier_keys_of].
  unfold bind, modifier_map_get, ret. by rewrite Hk, Hks.
Qed.

(** The state a key press leaves: the plain branch only runs the command;
    the branch guarded by [self.active_modifier] clears the modifier state
    first. *)
Lemma key_press_run host_run key msg s :
  active_modifiers s ⊆ dom MODIFIER_MAP →
  ∃ command r,
    _handle_standard_key_press host_run key msg s
    = (emit (EExec command)
         (if truthy_str (active_modifier s) then cleared s else s), Ok r).
Proof.
  intros Hknown. destruct (truthy_str (active_modifier s)) eqn:Ham.
  - destruct (modifier_keys_of_run (elements (active_modifiers s)) s) as [ks Hks].
    { apply Forall_forall. intros m Hin. apply Hknown. by apply elem_of_elements. }
    unfold _handle_standard_key_press.
    unfold bind at 1, gets at 1. rewrite Ham.
    unfold bind at 1, gets at 1. unfold bind at 1, bind at 1, gets at 1.
    unfold bind at 1. rewrite Hks. unfold bind at 1.
    rewrite (clear_run host_run s Hknown).
    eexists _, _. reflexivity.
  - eexists _, _. apply (key_press_plain host_run key msg s Ham).
Qed.

Lemma new_events_refl s : new_events s s = [].
Proof. apply drop_all. Qed.

Lemma timer_fire_preserves_inv host_run id s :
  modifier_inv s →
  ∃ s', timer_fire host_run id s = (s', Ok tt)
        ∧ modifier_inv s'
        ∧ cancel_before (live_timers s) (new_events s s') = true.
Proof.
  intros Hinv. pose proof Hinv as [Hiff Hone Href Hknown].
  unfold timer_fire, bind at 1, gets at 1.
  destruct (timers s !! id) as [st|] eqn:Hid;
    [destruct st|]; try (exists s; by rewrite new_events_refl).
  unfold bind at 1, modify at 1.
  set (sr := set_timers (<[id:=Running]> (timers s)) s).
  rewrite (clear_run host_run sr) by exact Hknown.
  destruct (cleared_fields sr) as (Hact & _ & _ & Hkt & Htr & Hlive).
  assert (id < length (timers s)) as Hlt by (by eapply lookup_lt_Some).
  eexists. split; [reflexivity|]. split.
  - apply inv_idle; [exact Hact|].
    intros j. unfold live. cbn [timers set_timers].
    rewrite list_lookup_insert_Some. intros [(_ & [=] & _)|[Hne Hj]].
    apply Hlive in Hj as [Hj _]. unfold live, sr in Hj. cbn [timers set_timers] in Hj.
    apply list_lookup_insert_Some in Hj as [(_ & [=] & _)|[_ Hj]].
    apply Hne. by apply Hone.
  - unfold new_events. cbn [trace set_timers]. rewrite Htr.
    change (trace sr) with (trace s). rewrite drop_app_length.
    rewrite cancel_before_execs.
    assert (cancel_events sr = [ETimerCancel id]) as ->.
    { unfold cancel_events. change (modifier_key_timer sr) with (modifier_key_timer s).
      rewrite (Href id Hid). unfold timer_is_alive, sr. cbn [timers set_timers].
      by rewrite list_lookup_insert_eq. }
    cbn [app cancel_before]. rewrite bool_decide_eq_true_2; [done|].
    apply elem_of_equiv_empty_L. intros j.
    rewrite elem_of_difference, elem_of_live_timers, elem_of_singleton.
    intros [Hj Hne]. apply Hne. by apply Hone.
Qed.

Lemma run_op_preserves_inv host_run s o :
  modifier_inv s → op_enabled o →
  ∃ s', run_op host_run o s = (s', Ok tt) ∧ modifier_inv s'
        ∧ cancel_before (live_timers s) (new_events s s') = true.
Proof.
  intros Hinv Hen.
  destruct o as [m|key msg| |id]; cbn [run_op op_enabled] in *.
  - exists (toggled m s). unfold bind, ret.
    rewrite (toggle_run host_run m s Hen).
    split; [done|]. by apply toggle_preserves_inv.
  - destruct (key_press_run host_run key msg s (inv_known s Hinv))
      as (command & r & Hrun).
    eexists. unfold bind, ret. rewrite Hrun. split; [reflexivity|].
    destruct (truthy_str (active_modifier s)).
    + destruct (clear_preserves_inv s Hinv) as [Hinv' Hord].
      destruct (cleared_fields s) as (_ & _ & _ & _ & Htr & _).
      split; [by eapply inv_ext; [..|exact Hinv']|].
      erewrite new_events_app
        by (cbn [trace emit]; rewrite Htr, <- app_assoc; reflexivity).
      rewrite (new_events_app _ _ _ Htr) in Hord.
      rewrite <- !app_assoc.
      rewrite cancel_before_execs in Hord |- *.
      rewrite cancel_before_cancel_events in Hord |- *
        by apply (inv_live_referenced s Hinv).
      cbn [app cancel_before] in Hord |- *. done.
    + split; [by eapply inv_ext; [..|exact Hinv]|].
      by erewrite new_events_app by reflexivity.
  - exists (cleared s). rewrite (clear_run host_run s (inv_known s Hinv)).
    split; [done|]. by apply clear_preserves_inv.
  - by apply timer_fire_preserves_inv.
Qed.

(** Every state reached from a fresh object by operations of the state
    machine satisfies the invariant. *)
Lemma reachable_inv host_run cfg home ops :
  Forall op_enabled ops →
  ∃ s', run_ops host_run ops (PCRemoteControl_init cfg home) = (s', Ok tt)
        ∧ modifier_inv s'.
Proof.
  generalize (PCRemoteControl_init cfg home) (init_inv cfg home).
  induction ops as [|o ops IH]; intros s Hinv Hops; [by exists s|].
  apply Forall_cons in Hops as [Ho Hops].
  destruct (run_op_preserves_inv host_run s o Hinv Ho) as (s1 & Hrun & Hinv1 & _).
  destruct (IH s1 Hinv1 Hops) as (s' & Hrun' & Hinv').
  exists s'. cbn [run_ops]. unfold bind. by rewrite Hrun.
Qed.

(** C6.  From a state that satisfies the invariant, every operation of the
    modifier state machine (a toggle of one of the three modifiers, a key
    press, a direct clear, the firing of a timer) returns normally in a state
    that satisfies it again: the set is non-empty exactly when a timer is
    live, and at most one timer is live; and in the events of the operation
    no timer is live at the moment a timer is started or the set is
    written. *)
Theorem modifier_invariant_preserved
    (host_run : list event → string → bool) (s : Self) (o : modifier_op) :
  modifier_inv s → op_enabled o →
  ∃ s', run_op host_run o s = (s', Ok tt)
        ∧ modifier_inv s'
        ∧ (active_modifiers s' ≠ ∅ ↔ ∃ id, live s' id)
        ∧ (∀ i j, live s' i → live s' j → i = j)
        ∧ cancel_before (live_timers s) (new_events s s') = true.
Proof.
  intros Hinv Hen.
  destruct (run_op_preserves_inv host_run s o Hinv Hen) as (s' & Hrun & Hinv' & Hord).
  exists s'. split_and!; try done.
  - apply (inv_nonempty_iff_live s' Hinv').
  - apply (inv_one_live s' Hinv').
Qed.

Lemma self_alt_held_inv : modifier_inv self_alt_held.
Proof.
  apply toggle_preserves_inv; [apply init_inv|].
  apply modifier_map_dom. tauto.
Qed.

Lemma modifier_invariant_preserved_witness :
  live self_alt_held 0
  ∧ ∃ s', run_op (fun _ _ => true) (OpTimerFire 0) self_alt_held = (s', Ok tt)
          ∧ modifier_inv s'
          ∧ (active_modifiers s' ≠ ∅ ↔ ∃ id, live s' id)
          ∧ (∀ i j, live s' i → live s' j → i = j)
          ∧ cancel_before (live_timers self_alt_held)
              (new_events self_alt_held s') = true.
Proof.
  split; [reflexivity|].
  apply (modifier_invariant_preserved (fun _ _ => true) self_alt_held (OpTimerFire 0)).
  - exact self_alt_held_inv.
  - exact I.
Defined.

(** ** Evaluations *)

Example title_of_task_manager : str_title "task_manager" = "Task_Manager".
Proof. reflexivity. Qed.

Example capitalize_of_alt : str_capitalize "alt" = "Alt".
Proof. reflexivity. Qed.

Example volume_above_range :
  _set_volume 250 NoFault = ([100%Z], mkVolumeResponse true "Volume set to 100%").
Proof. reflexivity. Qed.

Example volume_below_range :
  _set_volume (-3) NoFault = ([0%Z], mkVolumeResponse true "Volume set to 0%").
Proof. reflexivity. Qed.

Example timer_fire_releases_alt :
  let s' := (timer_fire (fun _ _ => true) 0 self_alt_held).1 in
  active_modifiers s' = ∅
  ∧ timers s' = [Finished]
  ∧ commands (new_events self_alt_held s')
    = [sendkey_command (nircmd self_alt_held) "alt" "up"].
Proof. vm_compute. done. Qed.

Example default_limit_is_120 :
  config_getattr (Config_init "b" "e" "Speakers" "Microphone" ∅)
    "MAX_REQUESTS_PER_MINUTE" = Ok (CInt 120).
Proof. reflexivity. Qed.

(** A modifier outside [MODIFIER_MAP] makes the handler raise [KeyError]
    after it has written the set; the routes never pass one. *)
Example toggle_unknown_modifier_raises :
  let '(s', r) := _handle_modifier_press (fun _ _ => true) "meta" self_limit_2 in
  r = Raise (KeyError "meta") ∧ elements (active_modifiers s') = ["meta"].
Proof. vm_compute. done. Qed.

(** With a configured limit of 0 every request is rejected. *)
Example limit_zero_rejects_all :
  (_rate_limit_check "10.0.0.7" 1000%Z
     (PCRemoteControl_init
        (Config_init "b" "e" "Speakers" "Microphone"
           {[ "MAX_REQUESTS_PER_MINUTE" := CInt 0 ]}) "h")).2
  = Ok false.
Proof. reflexivity. Qed.

(** Pressing Alt twice leaves the timer attribute on the cancelled timer;
    no timer is live. *)
Example alt_twice_leaves_stale_timer :
  active_modifiers self_alt_released = ∅
  ∧ modifier_key_timer self_alt_released = Some 0
  ∧ timers self_alt_released = [Cancelled].
Proof. vm_compute. done. Qed.

(** * Further properties *)

(** ** Timers *)

Lemma commands_app tr1 tr2 :
  commands (tr1 ++ tr2) = (commands tr1 ++ commands tr2)%list.
Proof. apply omap_app. Qed.

Lemma commands_execs cmds : commands (EExec <$> cmds) = cmds.
Proof. induction cmds as [|c cmds IH]; [done|]. cbn. by f_equal. Qed.

(** The state the firing of a live timer leaves. *)
Lemma timer_fire_run host_run id s :
  modifier_inv s → live s id →
  let sr := set_timers (<[id:=Running]> (timers s)) s in
  timer_fire host_run id s
  = (set_timers (<[id:=Finished]> (timers (cleared sr))) (cleared sr), Ok tt).
Proof.
  intros Hinv Hid sr. unfold timer_fire, bind at 1, gets at 1.
  unfold live in Hid. rewrite Hid. unfold bind at 1, modify at 1. fold sr.
  by rewrite (clear_run host_run sr) by exact (inv_known s Hinv).
Qed.

Lemma cancel_events_running id s :
  modifier_inv s → live s id →
  cancel_events (set_timers (<[id:=Running]> (timers s)) s) = [ETimerCancel id].
Proof.
  intros Hinv Hid. unfold cancel_events. cbn [modifier_key_timer timers set_timers].
  rewrite (inv_live_referenced s Hinv id Hid). unfold timer_is_alive.
  rewrite list_lookup_insert_eq by (by apply live_lt). done.
Qed.

(** X1.  When the live timer of a state that satisfies the invariant fires,
    one [sendkey <key> up] is run for each held modifier and nothing else, the
    set becomes empty, the timer attribute [None], the timer is finished and no
    timer is live. *)
Theorem timer_fire_releases_all
    (host_run : list event → string → bool) (s : Self) (id : nat) :
  modifier_inv s → live s id →
  ∃ s', timer_fire host_run id s = (s', Ok tt)
        ∧ active_modifiers s ≠ ∅
        ∧ commands (new_events s s') = release_commands s
        ∧ length (commands (new_events s s')) = size (active_modifiers s)
        ∧ active_modifiers s' = ∅
        ∧ modifier_key_timer s' = None
        ∧ timers s' !! id = Some Finished
        ∧ ∀ j, ¬ live s' j.
Proof.
  intros Hinv Hid.
  set (sr := set_timers (<[id:=Running]> (timers s)) s).
  destruct (cleared_fields sr) as (Hact & _ & _ & Hkt & Htr & Hlive).
  assert (commands (new_events s
            (set_timers (<[id:=Finished]> (timers (cleared sr))) (cleared sr)))
          = release_commands s) as Hcmds.
  { pose proof (cancel_events_running id s Hinv Hid) as Hce. fold sr in Hce.
    erewrite new_events_app by (cbn [trace set_timers]; exact Htr).
    rewrite !commands_app, commands_execs, Hce.
    cbn. by rewrite app_nil_r. }
  eexists. split; [apply (timer_fire_run host_run id s Hinv Hid)|].
  fold sr. split_and!; try done.
  - apply (inv_nonempty_iff_live s Hinv). by exists id.
  - rewrite Hcmds. unfold release_commands. by rewrite length_fmap.
  - cbn [timers set_timers]. apply list_lookup_insert_eq.
    assert (live (cancelled (emit_all (EExec <$> release_commands sr) sr)) id
            ∨ id < length (timers (cleared sr))) as [H|H]; [|by apply live_lt in H|done].
    right. unfold cleared. cbn [timers set_modifier_key_timer emit set_active_modifiers].
    destruct (cancelled_fields (emit_all (EExec <$> release_commands sr) sr))
      as (_ & _ & _ & _ & _ & ->).
    destruct (emit_all_fields (EExec <$> release_commands sr) sr)
      as (_ & _ & _ & _ & _ & ->).
    unfold sr. cbn [timers set_timers]. rewrite length_insert. by apply live_lt.
  - intros j. unfold live. cbn [timers set_timers].
    rewrite list_lookup_insert_Some. intros [(_ & [=] & _)|[Hne Hj]].
    apply Hlive in Hj as [Hj _]. unfold live, sr in Hj. cbn [timers set_timers] in Hj.
    apply list_lookup_insert_Some in Hj as [(_ & [=] & _)|[_ Hj]].
    apply Hne. by apply (inv_one_live s Hinv).
Qed.

Lemma timer_fire_releases_all_witness :
  ∃ s', timer_fire (fun _ _ => false) 0 self_alt_held = (s', Ok tt)
        ∧ commands (new_events self_alt_held s')
          = [sendkey_command (nircmd self_alt_held) "alt" "up"]
        ∧ active_modifiers s' = ∅.
Proof.
  destruct (timer_fire_releases_all (fun _ _ => false) self_alt_held 0)
    as (s' & Hrun & _ & Hcmds & _ & Hact & _).
  - exact self_alt_held_inv.
  - reflexivity.
  - exists s'. split_and!; [exact Hrun|rewrite Hcmds; reflexivity|exact Hact].
Defined.

Lemma timer_fire_not_live host_run id s :
  ¬ live s id → timer_fire host_run id s = (s, Ok tt).
Proof.
  intros Hid. unfold timer_fire, bind at 1, gets at 1. unfold live in Hid.
  destruct (timers s !! id) as [[]|]; done.
Qed.

(** X2.  A timer that was live is dead after a toggle or a clear: when its
    thread wakes up later, nothing happens, whatever was pressed in
    between. *)
Theorem stale_timer_never_fires
    (host_run : list event → string → bool) (s : Self) (id : nat) (m : string) :
  modifier_inv s → live s id → m ∈ dom MODIFIER_MAP →
  (∃ s1 r, _handle_modifier_press host_run m s = (s1, Ok r)
           ∧ timer_fire host_run id s1 = (s1, Ok tt))
  ∧ (∃ s1, _clear_modifier_state host_run s = (s1, Ok tt)
           ∧ timer_fire host_run id s1 = (s1, Ok tt)).
Proof.
  intros Hinv Hid Hm.
  pose proof (inv_live_referenced s Hinv id Hid) as Href.
  split.
  - eexists _, _. split; [apply (toggle_run host_run m s Hm)|].
    apply timer_fire_not_live.
    destruct (toggled_fields m s) as (_ & _ & _ & _ & Hlive & _).
    rewrite Hlive. intros [[_ Hne]|[_ ->]]; [done|].
    apply live_lt in Hid. lia.
  - eexists. split; [apply (clear_run host_run s (inv_known s Hinv))|].
    apply timer_fire_not_live.
    destruct (cleared_fields s) as (_ & _ & _ & _ & _ & Hlive).
    rewrite Hlive. by intros [_ Hne].
Qed.

Lemma stale_timer_never_fires_witness :
  ∃ s1 r, _handle_modifier_press (fun _ _ => true) "shift" self_alt_held = (s1, Ok r)
          ∧ live s1 1 ∧ ¬ live s1 0
          ∧ timer_fire (fun _ _ => true) 0 s1 = (s1, Ok tt).
Proof.
  destruct (stale_timer_never_fires (fun _ _ => true) self_alt_held 0 "shift")
    as [(s1 & r & Hrun & Hfire) _].
  - exact self_alt_held_inv.
  - reflexivity.
  - apply modifier_map_dom. tauto.
  - exists s1, r. split; [exact Hrun|].
    rewrite (toggle_run (fun _ _ => true) "shift" self_alt_held) in Hrun
      by (apply modifier_map_dom; tauto).
    injection Hrun as <- _. split_and!; [reflexivity|by vm_compute|exact Hfire].
Defined.

(** ** The host's modifier keys *)

Lemma str_app_inv (a x y : string) : a ++ x = a ++ y → x = y.
Proof.
  induction a as [|c a IH]; [done|]. intros H. apply IH.
  cbn [append] in H. by injection H.
Qed.

Lemma sendkey_command_inj nc m d m' d' :
  sendkey_command nc m d = sendkey_command nc m' d' →
  default "" (MODIFIER_MAP !! m) ++ " " ++ d
  = default "" (MODIFIER_MAP !! m') ++ " " ++ d'.
Proof.
  unfold sendkey_command, dq. cbn [append]. intros H.
  injection H as H. apply (str_app_inv nc) in H. cbn [append] in H.
  by injection H.
Qed.

Lemma sendkeypress_not_sendkey nc keys m d :
  sendkeypress_command nc keys ≠ sendkey_command nc m d.
Proof.
  unfold sendkeypress_command, sendkey_command, dq. cbn [append]. intros H.
  injection H as H. apply (str_app_inv nc) in H. cbn [append] in H.
  discriminate H.
Qed.

Ltac decide_sendkey :=
  repeat first
    [ rewrite bool_decide_eq_true_2 by reflexivity
    | rewrite bool_decide_eq_false_2
        by (let H := fresh in
            intros H; apply sendkey_command_inj in H; vm_compute in H;
            discriminate H) ].

Lemma host_apply_down nc held m :
  m ∈ dom MODIFIER_MAP →
  host_apply nc held (sendkey_command nc m "down") = held ∪ {[m]}.
Proof.
  intros Hm. apply modifier_map_dom in Hm as [->|[->| ->]];
    unfold host_apply; cbn [foldl]; decide_sendkey; reflexivity.
Qed.

Lemma host_apply_up nc held m :
  m ∈ dom MODIFIER_MAP →
  host_apply nc held (sendkey_command nc m "up") = held ∖ {[m]}.
Proof.
  intros Hm. apply modifier_map_dom in Hm as [->|[->| ->]];
    unfold host_apply; cbn [foldl]; decide_sendkey; reflexivity.
Qed.

(** A command that is no [sendkey] of a modifier leaves the keys alone. *)
Lemma host_apply_other nc held command :
  (∀ m d, command ≠ sendkey_command nc m d) →
  host_apply nc held command = held.
Proof.
  intros Hne. unfold host_apply. cbn [foldl].
  by rewrite !bool_decide_eq_false_2 by apply Hne.
Qed.

Lemma host_held_app nc cmds1 cmds2 :
  host_held nc (cmds1 ++ cmds2) = foldl (host_apply nc) (host_held nc cmds1) cmds2.
Proof. apply foldl_app. Qed.

(** Releasing a list of modifiers removes them from the held keys. *)
Lemma host_release_all nc ms :
  ∀ held,
  Forall (fun m => m ∈ dom MODIFIER_MAP) ms →
  foldl (host_apply nc) held ((fun m => sendkey_command nc m "up") <$> ms)
  = held ∖ list_to_set ms.
Proof.
  induction ms as [|m ms IH]; intros held Hms.
  - cbn [fmap list_fmap foldl]. rewrite list_to_set_nil. set_solver.
  - apply Forall_cons in Hms as [Hm Hms]. cbn [fmap list_fmap foldl].
    rewrite (host_apply_up nc held m Hm), (IH _ Hms), list_to_set_cons.
    set_solver.
Qed.

Lemma commands_cancel_events s : commands (cancel_events s) = [].
Proof.
  unfold cancel_events. destruct (modifier_key_timer s) as [id|]; [|done].
  by destruct (timer_is_alive _ _).
Qed.

Lemma mirrors_host_ext s s' cmds :
  nircmd s' = nircmd s →
  commands (trace s') = (commands (trace s) ++ cmds)%list →
  mirrors_host s →
  foldl (host_apply (nircmd s)) (active_modifiers s) cmds = active_modifiers s' →
  mirrors_host s'.
Proof.
  unfold mirrors_host. intros -> -> Hm Hfold. by rewrite host_held_app, Hm.
Qed.

Lemma toggle_mirrors m s :
  m ∈ dom MODIFIER_MAP → mirrors_host s → mirrors_host (toggled m s).
Proof.
  intros Hm Hmir.
  destruct (toggled_fields m s) as (Hact & _ & Hnc & Htr & _).
  apply (mirrors_host_ext s _
           [sendkey_command (nircmd s) m
              (if bool_decide (m ∈ active_modifiers s) then "up" else "down")]);
    [done| |done|].
  - rewrite Htr, !commands_app, commands_cancel_events.
    by destruct (bool_decide (m ∈ _)), (bool_decide (_ ≠ ∅)).
  - rewrite Hact. cbn [foldl].
    destruct (bool_decide (m ∈ active_modifiers s));
      [by apply host_apply_up|by apply host_apply_down].
Qed.

Lemma clear_mirrors s :
  active_modifiers s ⊆ dom MODIFIER_MAP → mirrors_host s → mirrors_host (cleared s).
Proof.
  intros Hknown Hmir.
  destruct (cleared_fields s) as (Hact & _ & Hnc & _ & Htr & _).
  apply (mirrors_host_ext s _ (release_commands s)); [done| |done|].
  - rewrite Htr, !commands_app, commands_execs, commands_cancel_events.
    cbn. by rewrite app_nil_r.
  - rewrite Hact. unfold release_commands. rewrite host_release_all.
    + apply elem_of_equiv_empty_L. intros m.
      rewrite elem_of_difference, elem_of_list_to_set, elem_of_elements. tauto.
    + apply Forall_forall. intros m Hin. apply Hknown. by apply elem_of_elements.
Qed.

(** The command of a key press is a [sendkeypress]. *)
Lemma key_press_run_command host_run key msg s :
  active_modifiers s ⊆ dom MODIFIER_MAP →
  ∃ keys r,
    _handle_standard_key_press host_run key msg s
    = (emit (EExec (sendkeypress_command (nircmd s) keys))
         (if truthy_str (active_modifier s) then cleared s else s), Ok r).
Proof.
  intros Hknown. destruct (truthy_str (active_modifier s)) eqn:Ham.
  - destruct (modifier_keys_of_run (elements (active_modifiers s)) s) as [ks Hks].
    { apply Forall_forall. intros m Hin. apply Hknown. by apply elem_of_elements. }
    unfold _handle_standard_key_press.
    unfold bind at 1, gets at 1. rewrite Ham.
    unfold bind at 1, gets at 1. unfold bind at 1, bind at 1, gets at 1.
    unfold bind at 1. rewrite Hks. unfold bind at 1.
    rewrite (clear_run host_run s Hknown).
    exists (str_join "+" ks ++ "+" ++ key). eexists. reflexivity.
  - exists key. eexists. apply (key_press_plain host_run key msg s Ham).
Qed.

Lemma emit_exec_mirrors s command :
  (∀ m d, command ≠ sendkey_command (nircmd s) m d) →
  mirrors_host s → mirrors_host (emit (EExec command) s).
Proof.
  intros Hne Hmir. apply (mirrors_host_ext s _ [command]); [done| |done|].
  - cbn [trace emit]. by rewrite commands_app.
  - cbn [foldl active_modifiers emit]. by apply host_apply_other.
Qed.

(** What an operation keeps: the path of nircmd, the attribute
    [active_modifier], and the agreement of the set with the host. *)
Lemma run_op_mirrors host_run s o :
  modifier_inv s → op_enabled o → mirrors_host s →
  let s' := (run_op host_run o s).1 in
  mirrors_host s' ∧ nircmd s' = nircmd s ∧ active_modifier s' = active_modifier s.
Proof.
  intros Hinv Hen Hmir.
  destruct o as [m|key msg| |id]; cbn [run_op op_enabled] in *.
  - unfold bind, ret. rewrite (toggle_run host_run m s Hen). cbn [fst].
    destruct (toggled_fields m s) as (_ & Ham & Hnc & _).
    split_and!; [by apply toggle_mirrors|done|done].
  - destruct (key_press_run_command host_run key msg s (inv_known s Hinv))
      as (keys & r & Hrun).
    unfold bind, ret. rewrite Hrun. cbn [fst].
    destruct (cleared_fields s) as (_ & Ham & Hnc & _).
    destruct (truthy_str (active_modifier s)).
    + split_and!; [|done|done].
      rewrite <- Hnc. apply emit_exec_mirrors.
      * intros m d. apply sendkeypress_not_sendkey.
      * by apply clear_mirrors; [apply (inv_known s Hinv)|].
    + split_and!; [|done|done].
      apply emit_exec_mirrors; [|done]. intros m d. apply sendkeypress_not_sendkey.
  - rewrite (clear_run host_run s (inv_known s Hinv)). cbn [fst].
    destruct (cleared_fields s) as (_ & Ham & Hnc & _).
    split_and!; [by apply clear_mirrors; [apply (inv_known s Hinv)|]|done|done].
  - destruct (decide (timers s !! id = Some Pending)) as [Hid|Hid].
    + rewrite (timer_fire_run host_run id s Hinv Hid). cbn [fst].
      set (sr := set_timers (<[id:=Running]> (timers s)) s).
      destruct (cleared_fields sr) as (_ & Ham & Hnc & _).
      assert (mirrors_host (cleared sr)) as Hc
        by (apply clear_mirrors; [apply (inv_known s Hinv)|exact Hmir]).
      split_and!; [exact Hc|exact Hnc|exact Ham].
    + by rewrite (timer_fire_not_live host_run id s Hid).
Qed.

Lemma reachable_mirrors host_run cfg home ops :
  Forall op_enabled ops →
  ∃ s', run_ops host_run ops (PCRemoteControl_init cfg home) = (s', Ok tt)
        ∧ modifier_inv s' ∧ mirrors_host s' ∧ active_modifier s' = None.
Proof.
  assert (∀ s, modifier_inv s → mirrors_host s → active_modifier s = None →
               Forall op_enabled ops →
               ∃ s', run_ops host_run ops s = (s', Ok tt)
                     ∧ modifier_inv s' ∧ mirrors_host s' ∧ active_modifier s' = None)
    as Hgen.
  { induction ops as [|o ops IH]; intros s Hinv Hmir Ham Hops; [by exists s|].
    apply Forall_cons in Hops as [Ho Hops].
    destruct (run_op_preserves_inv host_run s o Hinv Ho) as (s1 & Hrun & Hinv1 & _).
    destruct (run_op_mirrors host_run s o Hinv Ho Hmir) as (Hmir1 & _ & Ham1).
    rewrite Hrun in Hmir1, Ham1. cbn [fst] in Hmir1, Ham1.
    destruct (IH s1 Hinv1 Hmir1) as (s' & Hrun' & Hrest); [congruence|done|].
    exists s'. cbn [run_ops]. unfold bind. by rewrite Hrun. }
  intros Hops. apply Hgen; [apply init_inv|reflexivity|reflexivity|exact Hops].
Qed.

(** X3.  After any sequence of toggles of the three modifiers, key presses,
    clears and timer firings on a fresh object, the modifiers that the
    [sendkey] commands run so far leave down on the host are exactly the
    members of [active_modifiers]. *)
Theorem held_modifiers_mirror_host
    (host_run : list event → string → bool) (cfg : Config) (home : string)
    (ops : list modifier_op) :
  Forall op_enabled ops →
  ∃ s', run_ops host_run ops (PCRemoteControl_init cfg home) = (s', Ok tt)
        ∧ host_held (nircmd s') (commands (trace s')) = active_modifiers s'.
Proof.
  intros Hops.
  destruct (reachable_mirrors host_run cfg home ops Hops) as (s' & Hrun & _ & Hmir & _).
  by exists s'.
Qed.

Lemma held_modifiers_mirror_host_witness :
  ∃ s', run_ops (fun _ _ => true)
          [OpToggle "alt"; OpToggle "shift"; OpKeyPress "tab" "Tab"; OpToggle "alt"]
          self_limit_2 = (s', Ok tt)
        ∧ host_held (nircmd s') (commands (trace s')) = active_modifiers s'
        ∧ elements (active_modifiers s') = ["shift"].
Proof.
  destruct (held_modifiers_mirror_host (fun _ _ => true) config_limit_2 "C:\Users\me"
              [OpToggle "alt"; OpToggle "shift"; OpKeyPress "tab" "Tab"; OpToggle "alt"])
    as (s' & Hrun & Hmir).
  - repeat (apply Forall_cons; split; [cbn; try apply modifier_map_dom; tauto|]).
    apply Forall_nil_2.
  - exists s'. split_and!; [exact Hrun|exact Hmir|].
    vm_compute in Hrun. injection Hrun as <-. vm_compute. reflexivity.
Defined.

(** X4.  In every state reached from a fresh object by operations of the
    state machine, [active_modifier] is still [None]: a key press runs one
    [sendkeypress] of the key alone and leaves the held modifiers and their
    timer as they are, so the modifiers stay held across key presses. *)
Theorem key_press_never_consumes
    (host_run : list event → string → bool) (cfg : Config) (home : string)
    (ops : list modifier_op) (key msg : string) :
  Forall op_enabled ops →
  ∃ s' s'' r,
    run_ops host_run ops (PCRemoteControl_init cfg home) = (s', Ok tt)
    ∧ _handle_standard_key_press host_run key msg s' = (s'', Ok r)
    ∧ new_events s' s'' = [EExec (sendkeypress_command (nircmd s') key)]
    ∧ active_modifiers s'' = active_modifiers s'
    ∧ timers s'' = timers s'
    ∧ modifier_key_timer s'' = modifier_key_timer s'
    ∧ activeModifiers r = elements (active_modifiers s').
Proof.
  intros Hops.
  destruct (reachable_mirrors host_run cfg home ops Hops) as (s' & Hrun & _ & _ & Ham).
  assert (truthy_str (active_modifier s') = false) as Ht by (by rewrite Ham).
  eexists s', _, _. split; [exact Hrun|].
  split; [apply (key_press_plain host_run key msg s' Ht)|].
  split_and!; try done.
  by apply new_events_app.
Qed.

Lemma key_press_never_consumes_witness :
  ∃ s' s'' r,
    run_ops (fun _ _ => true) [OpToggle "ctrl"; OpKeyPress "f5" "F5"] self_limit_2
      = (s', Ok tt)
    ∧ _handle_standard_key_press (fun _ _ => true) "f5" "F5" s' = (s'', Ok r)
    ∧ activeModifiers r = ["ctrl"].
Proof.
  destruct (key_press_never_consumes (fun _ _ => true) config_limit_2 "C:\Users\me"
              [OpToggle "ctrl"; OpKeyPress "f5" "F5"] "f5" "F5")
    as (s' & s'' & r & Hrun & Hkey & _ & _ & _ & _ & Hr).
  - repeat (apply Forall_cons; split; [cbn; try apply modifier_map_dom; tauto|]).
    apply Forall_nil_2.
  - exists s', s'', r. split_and!; [exact Hrun|exact Hkey|].
    rewrite Hr. vm_compute in Hrun. injection Hrun as <-. vm_compute. reflexivity.
Defined.

(** ** Command outcomes and the modifier state *)

Lemma release_each_any_host h1 h2 ms :
  ∀ s, release_each h1 ms s = release_each h2 ms s.
Proof.
  induction ms as [|m ms IH]; intros s; [reflexivity|].
  cbn [release_each]. cbv beta iota delta [bind gets modifier_map_get].
  destruct (MODIFIER_MAP !! m) as [k|]; [|reflexivity].
  cbv beta iota delta [bind gets modify _execute_command ret]. apply IH.
Qed.

(** X5.  The modifier handlers update the state whether or not the key
    command succeeded: [_handle_modifier_press] and [_clear_modifier_state]
    leave the same state and give the same answer with any two hosts, and a
    toggle that returns always answers [success: True]. *)
Theorem modifier_state_ignores_command_outcome
    (h1 h2 : list event → string → bool) (m : string) (s : Self) :
  _handle_modifier_press h1 m s = _handle_modifier_press h2 m s
  ∧ _clear_modifier_state h1 s = _clear_modifier_state h2 s
  ∧ ∀ s' r, _handle_modifier_press h1 m s = (s', Ok r) → success r = true.
Proof.
  split_and!.
  - unfold _handle_modifier_press. cbv beta iota delta [bind gets].
    rewrite cancel_run. cbv beta iota.
    destruct (bool_decide (m ∈ active_modifiers (cancelled s)));
      cbv beta iota delta [modify modifier_map_get];
      (destruct (MODIFIER_MAP !! m) as [k|]; [|reflexivity]);
      reflexivity.
  - unfold _clear_modifier_state. cbv beta iota delta [bind gets].
    by rewrite (release_each_any_host h1 h2).
  - intros s' r. unfold _handle_modifier_press. cbv beta iota delta [bind gets].
    rewrite cancel_run. cbv beta iota.
    destruct (bool_decide (m ∈ active_modifiers (cancelled s)));
      cbv beta iota delta [modify modifier_map_get];
      (destruct (MODIFIER_MAP !! m) as [k|]; [|done]);
      cbv beta iota delta [_execute_command bind gets modify ret];
      cbn [active_modifiers emit set_active_modifiers];
      (destruct (bool_decide (_ ≠ ∅)); intros [= <- <-]; reflexivity).
Qed.

(** ** Rate limiter *)

Lemma client_log_insert_ne s a b log :
  a ≠ b →
  client_log (set_request_counts (<[a := log]> (request_counts s)) s) b
  = client_log s b.
Proof.
  intros Hne. unfold client_log. cbn [request_counts set_request_counts].
  by rewrite (lookup_insert_ne (request_counts s)).
Qed.

(** The answer of a check and the log it leaves. *)
Lemma rate_limit_step_log s client now limit :
  config_getattr (config s) "MAX_REQUESTS_PER_MINUTE" = Ok (CInt limit) →
  let pruned := prune now (client_log s client) in
  let allowed := negb (limit <=? Z.of_nat (length pruned))%Z in
  _rate_limit_check client now s
  = (set_request_counts
       (<[client := if allowed then (pruned ++ [now])%list else pruned]>
          (request_counts s)) s,
     Ok allowed).
Proof.
  intros Hcfg. rewrite (rate_limit_step s client now limit Hcfg). cbn zeta.
  by destruct (limit <=? _)%Z.
Qed.

(** X6.  Checks of two different clients commute: in either order each
    client gets the same answer and the object ends in the same state, so one
    client's traffic never changes another client's budget. *)
Theorem rate_limit_clients_commute
    (s : Self) (a b : string) (ta tb limit : Z) :
  config_getattr (config s) "MAX_REQUESTS_PER_MINUTE" = Ok (CInt limit) →
  a ≠ b →
  let ab := _rate_limit_check b tb (_rate_limit_check a ta s).1 in
  let ba := _rate_limit_check a ta (_rate_limit_check b tb s).1 in
  (_rate_limit_check a ta s).2 = ba.2
  ∧ (_rate_limit_check b tb s).2 = ab.2
  ∧ ab.1 = ba.1.
Proof.
  intros Hcfg Hne ab ba. subst ab ba.
  rewrite (rate_limit_step_log s a ta limit Hcfg).
  rewrite (rate_limit_step_log s b tb limit Hcfg). cbn [fst snd].
  set (sa := set_request_counts (<[a := _]> (request_counts s)) s).
  set (sb := set_request_counts (<[b := _]> (request_counts s)) s).
  rewrite (rate_limit_step_log sa b tb limit Hcfg).
  rewrite (rate_limit_step_log sb a ta limit Hcfg). cbn [fst snd].
  subst sa sb.
  rewrite (client_log_insert_ne s a b) by done.
  rewrite (client_log_insert_ne s b a) by done.
  split_and!; [done|done|].
  cbn [request_counts set_request_counts]. rewrite !set_request_counts_twice.
  f_equal. by apply insert_insert_ne.
Qed.

Lemma rate_limit_clients_commute_witness :
  (_rate_limit_check "10.0.0.8" 2000%Z
     (_rate_limit_check "10.0.0.7" 1000%Z self_limit_2).1).1
  = (_rate_limit_check "10.0.0.7" 1000%Z
       (_rate_limit_check "10.0.0.8" 2000%Z self_limit_2).1).1.
Proof.
  apply (rate_limit_clients_commute self_limit_2 "10.0.0.7" "10.0.0.8"
           1000%Z 2000%Z 2%Z); [reflexivity|done].
Defined.

Lemma prune_prune t0 now (log : list Z) :
  (t0 ≤ now)%Z → prune now (prune t0 log) = prune now log.
Proof.
  intros Hle. unfold prune. apply list_filter_filter_l. intros t. lia.
Qed.

Lemma prune_snoc now (log : list Z) :
  prune now (log ++ [now]) = (prune now log ++ [now])%list.
Proof.
  unfold prune. rewrite filter_app. f_equal.
  rewrite filter_cons_True by (unfold timedelta_minutes; lia). done.
Qed.

Lemma rate_limit_window_gen client limit nows :
  ∀ s t0 acc,
  config_getattr (config s) "MAX_REQUESTS_PER_MINUTE" = Ok (CInt limit) →
  nondecreasing (t0 :: nows) →
  client_log s client = prune t0 acc →
  (Z.of_nat (length (prune t0 acc)) ≤ limit)%Z →
  ∃ s' answers,
    rate_limit_burst client nows s = (s', Ok answers)
    ∧ length answers = length nows
    ∧ client_log s' client
      = prune (default t0 (last nows)) (acc ++ allowed_times nows answers)
    ∧ (Z.of_nat (length (client_log s' client)) ≤ limit)%Z.
Proof.
  induction nows as [|now rest IH]; intros s t0 acc Hcfg [Hle Hnd] Hlog Hlen.
  - exists s, []. cbn [last default allowed_times]. rewrite app_nil_r, Hlog. done.
  - assert (t0 ≤ now)%Z as Ht0 by (apply Hle; by left).
    cbn [rate_limit_burst]. unfold bind at 1.
    rewrite (rate_limit_step_log s client now limit Hcfg). cbn zeta.
    rewrite Hlog, (prune_prune t0 now acc Ht0).
    pose proof (length_filter (fun t => (now - timedelta_minutes 1 < t)%Z)
                  (prune t0 acc)) as Hsub.
    fold (prune now (prune t0 acc)) in Hsub. rewrite (prune_prune t0 now acc Ht0) in Hsub.
    set (s1 := set_request_counts _ s).
    assert (default t0 (last (now :: rest)) = default now (last rest)) as ->
      by (rewrite last_cons; by destruct (last rest)).
    destruct (Z.leb_spec limit (Z.of_nat (length (prune now acc)))) as [Hfull|Hroom];
      cbn [negb] in s1.
    + destruct (IH s1 now acc) as (s' & answers & Hrun & Hla & Hlog' & Hlen');
        [exact Hcfg|exact Hnd|subst s1; by rewrite client_log_insert|lia|].
      exists s', (false :: answers). unfold bind, ret. rewrite Hrun.
      cbn [allowed_times length]. split_and!; [done|by rewrite Hla|done|done].
    + destruct (IH s1 now (acc ++ [now])%list)
        as (s' & answers & Hrun & Hla & Hlog' & Hlen');
        [exact Hcfg|exact Hnd|subst s1; by rewrite client_log_insert, prune_snoc| |].
      { rewrite prune_snoc, length_app. cbn [length]. lia. }
      exists s', (true :: answers). unfold bind, ret. rewrite Hrun.
      cbn [allowed_times length]. split_and!; [done|by rewrite Hla| |done].
      rewrite Hlog', <- app_assoc. done.
Qed.

(** X7.  With a clock that never goes back and an integer limit that is not
    negative, after any run of checks of a client whose log was empty the log
    holds exactly the requests that were allowed during the last 60 seconds,
    and these are at most [limit]. *)
Theorem rate_limit_window_bound
    (s : Self) (client : string) (limit : Z) (nows : list Z) :
  config_getattr (config s) "MAX_REQUESTS_PER_MINUTE" = Ok (CInt limit) →
  (0 ≤ limit)%Z →
  client_log s client = [] →
  nondecreasing nows →
  ∃ s' answers,
    rate_limit_burst client nows s = (s', Ok answers)
    ∧ length answers = length nows
    ∧ ∀ now, last nows = Some now →
        client_log s' client = prune now (allowed_times nows answers)
        ∧ (Z.of_nat (length (prune now (allowed_times nows answers))) ≤ limit)%Z.
Proof.
  intros Hcfg Hpos Hlog Hnd.
  destruct nows as [|now1 rest].
  - exists s, []. split_and!; [done|done|]. by intros now [=].
  - destruct (rate_limit_window_gen client limit (now1 :: rest) s now1 [])
      as (s' & answers & Hrun & Hla & Hlog' & Hlen'); [exact Hcfg| |done|cbn; lia|].
    { split; [|exact Hnd]. intros t Ht. apply elem_of_cons in Ht as [->|Ht]; [lia|].
      by apply (proj1 Hnd). }
    exists s', answers. split_and!; [done|done|].
    intros now Hlast. rewrite Hlast in Hlog'.
    split; [exact Hlog'|]. rewrite Hlog' in Hlen'. exact Hlen'.
Qed.

Lemma rate_limit_window_bound_witness :
  ∃ s', rate_limit_burst "10.0.0.7" [1000; 2000; 3000; 60001500]%Z self_limit_2
          = (s', Ok [true; true; false; true])
        ∧ client_log s' "10.0.0.7" = [2000; 60001500]%Z.
Proof.
  destruct (rate_limit_window_bound self_limit_2 "10.0.0.7" 2
              [1000; 2000; 3000; 60001500]%Z)
    as (s' & answers & Hrun & _ & Hlast); [reflexivity|lia|reflexivity| |].
  - cbn [nondecreasing]. split_and!; try done;
      intros t Ht; rewrite ?elem_of_cons, elem_of_nil in Ht; lia.
  - exists s'. vm_compute in Hrun. injection Hrun as <- <-.
    split; [reflexivity|]. vm_compute. reflexivity.
Defined.

(** ** Login, the guard and the routes *)



(** A numeric password in the configuration file locks everybody out. *)
Example numeric_password_never_matches :
  (login (mkRequest "POST" (Some "login") "10.0.0.7"
            (<["username" := "admin"]> {[ "password" := "1234" ]})) ∅
     (PCRemoteControl_init
        (Config_init "b" "e" "Speakers" "Microphone" {[ "PASSWORD" := CInt 1234 ]})
        "h")).2
  = Ok (∅, Render "login.html").
Proof. reflexivity. Qed.

(** What the rate limiter and the guard can change of the object: the
    request log only. *)
Lemma rate_limit_check_state client now s :
  ∃ rc, (_rate_limit_check client now s).1 = set_request_counts rc s.
Proof.
  unfold _rate_limit_check. cbv beta iota zeta delta [bind gets modify lift].
  destruct (config_getattr _ _) as [v|]; [|by eexists].
  destruct (cfg_as_int v); [|by eexists].
  destruct (_ <=? _)%Z; by eexists.
Qed.

Lemma before_request_effects req session now_rl now_chk now_set s :
  let out := before_request req session now_rl now_chk now_set s in
  (∃ rc, out.1 = set_request_counts rc s)
  ∧ ∀ session', out.2 = Ok (session', None) →
                session_logged_in session' = session_logged_in session.
Proof.
  unfold before_request. cbv beta iota delta [bind gets].
  destruct (negb (app_enabled s) && _).
  { cbn [fst snd ret]. split; [|done]. exists (request_counts s). by destruct s. }
  destruct (rate_limit_check_state (remote_addr req) now_rl s) as [rc Hrc].
  destruct (_rate_limit_check (remote_addr req) now_rl s) as [s1 [allowed|e]];
    cbn [fst] in Hrc; subst s1; [|split; [by exists rc|done]].
  destruct allowed; cbn [negb]; [|split; [by exists rc|done]].
  destruct (bool_decide _ && bool_decide _).
  - cbv beta iota delta [lift].
    destruct (session_last_activity session); [|split; [by exists rc|done]].
    destruct (config_getattr _ _) as [v|]; [|split; [by exists rc|done]].
    destruct (cfg_as_int v); [|split; [by exists rc|done]].
    destruct (_ <? _)%Z; cbn [fst snd ret]; (split; [by exists rc|]); [done|].
    intros session' [= <-]. unfold session_logged_in.
    by rewrite lookup_insert_ne.
  - cbn [fst snd ret]. split; [by exists rc|]. by intros session' [= <-].
Qed.

(** X9.  A request for an action with a session whose [logged_in] is not
    true never reaches [handle_action]: no command is run, and the modifier
    set, the timers and the process snapshot stay as they were (only the
    request log can change), whatever the action name. *)
Theorem unauthenticated_never_runs_action
    (host_run : list event → string → bool) (req : Request)
    (session : gmap string sval) (now_rl now_chk now_set : Z)
    (host : ActionHost) (action_name : string) (s : Self) :
  session_logged_in session = false →
  let out := action_request host_run req session now_rl now_chk now_set
               host action_name s in
  (∃ rc, out.1 = set_request_counts rc s)
  ∧ trace out.1 = trace s
  ∧ active_modifiers out.1 = active_modifiers s
  ∧ timers out.1 = timers s
  ∧ ∀ session' answer, out.2 ≠ Ok (session', inr (inr answer)).
Proof.
  intros Hout out.
  assert (∃ rc, out.1 = set_request_counts rc s) as [rc Hrc];
    [|split; [by exists rc|rewrite Hrc; split_and!; try done]];
    subst out; unfold action_request, serve; unfold bind at 1;
    destruct (before_request_effects req session now_rl now_chk now_set s)
      as [[rc' Hs1] Hsess];
    destruct (before_request req session now_rl now_chk now_set s)
      as [s1 [[session1 [resp|]]|e]]; cbn [fst snd] in *; subst s1;
    try (by eexists); try done.
  - unfold login_required. rewrite (Hsess session1 eq_refl), Hout.
    by eexists.
  - unfold login_required. rewrite (Hsess session1 eq_refl), Hout. done.
Qed.

Lemma unauthenticated_never_runs_action_witness :
  let out := action_request (fun _ _ => true) status_request ∅ 1000%Z 1000%Z 1000%Z
               (mkActionHost 0 None (Failed "no device")
                  (mkAudioProbe (Failed "no device") false (Failed "x") (Failed "x")))
               "shutdown" self_limit_2 in
  out.2 = Ok (∅, inr (inl (Redirect "login")))
  ∧ trace out.1 = trace self_limit_2
  ∧ client_log out.1 "10.0.0.7" = [1000%Z].
Proof.
  intros out.
  destruct (unauthenticated_never_runs_action (fun _ _ => true) status_request ∅
              1000%Z 1000%Z 1000%Z
              (mkActionHost 0 None (Failed "no device")
                 (mkAudioProbe (Failed "no device") false (Failed "x") (Failed "x")))
              "shutdown" self_limit_2) as (_ & Htrace & _);
    [vm_compute; reflexivity|].
  split_and!; [vm_compute; reflexivity|exact Htrace|vm_compute; reflexivity].
Defined.

(** X10.  After the tray has disabled the application, every request to an
    endpoint other than [static] is answered 503 before the rate limiter is
    consulted: the object, its request log included, and the session are left
    as they were; a second toggle restores the state before the first. *)
Theorem disabled_app_answers_503
    (s : Self) (req : Request) (session : gmap string sval)
    (now_rl now_chk now_set : Z) :
  app_enabled s = true →
  endpoint req ≠ Some "static" →
  let disabled := (_toggle_app_enabled s).1 in
  app_enabled disabled = false
  ∧ before_request req session now_rl now_chk now_set disabled
    = (disabled, Ok (session, Some (Json 503 "App is disabled from system tray")))
  ∧ (_toggle_app_enabled disabled).1 = s.
Proof.
  intros Hen Hstatic disabled. subst disabled.
  unfold _toggle_app_enabled, modify. cbn [fst]. rewrite Hen. cbn [negb].
  split_and!.
  - reflexivity.
  - unfold before_request. cbv beta iota delta [bind gets].
    cbn [app_enabled set_app_enabled negb andb].
    by rewrite bool_decide_eq_false_2.
  - destruct s. cbn in *. by subst.
Qed.

Lemma disabled_app_answers_503_witness :
  before_request status_request session_with_activity 1000%Z 1000%Z 1000%Z
    (_toggle_app_enabled self_limit_2).1
  = ((_toggle_app_enabled self_limit_2).1,
     Ok (session_with_activity, Some (Json 503 "App is disabled from system tray"))).
Proof.
  apply (disabled_app_answers_503 self_limit_2 status_request session_with_activity
           1000%Z 1000%Z 1000%Z); [reflexivity|done].
Defined.

(** ** Configuration *)


(** A file that sets [SESSION_TIMEOUT] does not create the attribute. *)
Example session_timeout_key_is_ignored :
  config_getattr
    (Config_init "b" "e" "Speakers" "Microphone" {[ "SESSION_TIMEOUT" := CInt 5 ]})
    "SESSION_TIMEOUT"
  = Raise (AttributeError "SESSION_TIMEOUT").
Proof. reflexivity. Qed.

(** ** Process snapshot, status and app toggle *)




(** X13.  The answer of [app_toggle] and the calls it makes to the host do
    not depend on the second refresh: the [running] value it reports is
    computed from the first snapshot and the success of the command, not read
    from the snapshot taken after the toggle. *)
Theorem app_toggle_answer_ignores_second_refresh
    (host_run : list event → string → bool)
    (host_popen : list event → string → option string)
    (s : Self) (app_name : string)
    (probe1 probe2 probe2' : result (list (option string)))
    (now1 now2 now2' : Z) :
  (app_toggle host_run host_popen app_name probe1 now1 probe2 now2 s).2
  = (app_toggle host_run host_popen app_name probe1 now1 probe2' now2' s).2
  ∧ trace (app_toggle host_run host_popen app_name probe1 now1 probe2 now2 s).1
    = trace (app_toggle host_run host_popen app_name probe1 now1 probe2' now2' s).1.
Proof.
  unfold app_toggle, _update_running_apps_cache, _execute_command.
  cbv beta iota zeta delta [bind gets modify ret]. cbn [negb andb].
  destruct (apps s !! app_name) as [app_config|]; [|done].
  destruct probe1 as [procs1|e1];
    cbn [apps trace running_apps_cache set_cache emit];
    (destruct (is_running _ _);
     [destruct (negb (default true (closable app_config))); [done|]
     |destruct (host_popen _ _)]);
    destruct probe2, probe2'; done.
Qed.

(** X14.  For a configured app that may be closed or is not running,
    [app_toggle] makes exactly one call to the host: [taskkill /F /IM] of the
    executable when the first snapshot has the process, and otherwise a
    [Popen] of the launch command and no [taskkill].  The reported [running]
    is then the opposite of the snapshot when the call succeeded and the
    snapshot's value when it failed.  An unknown app changes nothing. *)
Theorem app_toggle_makes_one_host_call
    (host_run : list event → string → bool)
    (host_popen : list event → string → option string)
    (s : Self) (app_name : string)
    (probe1 probe2 : result (list (option string))) (now1 now2 : Z) :
  let out := app_toggle host_run host_popen app_name probe1 now1 probe2 now2 s in
  match apps s !! app_name with
  | None => out = (s, Ok (mkToggleResponse false "App not configured" None))
  | Some app_config =>
      let running :=
        is_running (str_lower (default (exe app_config) (process_name app_config)))
          (_update_running_apps_cache true now1 probe1 now1 s).1 in
      let kill := "taskkill /F /IM " ++ dq ++ exe app_config ++ dq in
      if running then
        default true (closable app_config) = true →
        new_events s out.1 = [EExec kill]
        ∧ ∃ msg, out.2 = Ok (mkToggleResponse (host_run (trace s) kill) msg
                               (Some (negb (host_run (trace s) kill))))
      else
        new_events s out.1 = [EPopen (cmd app_config)]
        ∧ ∃ msg, out.2 = Ok (mkToggleResponse
                               (bool_decide (host_popen (trace s) (cmd app_config) = None))
                               msg
                               (Some (bool_decide
                                        (host_popen (trace s) (cmd app_config) = None))))
  end.
Proof.
  intros out. subst out.
  unfold app_toggle, _update_running_apps_cache, _execute_command.
  cbv beta iota zeta delta [bind gets modify ret]. cbn [negb andb].
  destruct (apps s !! app_name) as [app_config|]; [|done].
  destruct probe1 as [procs1|e1];
    cbn [fst apps trace running_apps_cache set_cache emit];
    (destruct (is_running _ _);
     [intros ->; cbn [negb]; destruct (host_run _ _)
     |destruct (host_popen _ _)]);
    destruct probe2; cbn [fst snd trace set_cache emit];
    (split; [by apply new_events_app|by eexists]).
Qed.

(** ** The action table *)

Lemma first_word_nonspace c r :
  ascii_is_space c = false → is_Some (first_word (String c r)).
Proof. intros Hc. cbn [first_word]. rewrite Hc. by eexists. Qed.

Ltac not_sendkey nc :=
  let H := fresh in
  intros ? ? H; unfold sendkey_command, dq in H; cbn [append] in H;
  first [ discriminate H
        | injection H as H; apply (str_app_inv nc) in H; cbn [append] in H;
          discriminate H ].

(** The kinds of callables in the table: a command that has a first word
    and is no [sendkey] of a modifier, a key press, a toggle of one of the
    three modifiers, the screenshot, the audio toggle. *)
Lemma actions_classified nc recording_1 name a :
  actions nc recording_1 !! name = Some a →
  (∃ command msg, a = Simple command msg
                  ∧ is_Some (first_word command)
                  ∧ ∀ m d, command ≠ sendkey_command nc m d)
  ∨ (∃ key msg, a = StandardKey key msg)
  ∨ (∃ m, a = ModifierPress m ∧ m ∈ dom MODIFIER_MAP)
  ∨ a = Screenshot
  ∨ a = AudioDeviceToggle.
Proof.
  intros H. unfold actions in H. cbv zeta in H.
  apply elem_of_list_to_map_2 in H.
  rewrite !elem_of_cons, elem_of_nil in H.
  repeat (destruct H as [[= -> ->]|H];
          [first
             [ left; eexists _, _; split; [reflexivity|];
               split; [unfold dq; cbn [append]; by apply first_word_nonspace
                      |not_sendkey nc]
             | right; left; by eexists _, _
             | right; right; left; eexists; split; [reflexivity|];
               apply modifier_map_dom; tauto
             | right; right; right; left; reflexivity
             | right; right; right; right; reflexivity ]|]).
  done.
Qed.

Lemma call_action_ok host_run host a s :
  modifier_inv s → mirrors_host s →
  (∃ command msg, a = Simple command msg
                  ∧ is_Some (first_word command)
                  ∧ ∀ m d, command ≠ sendkey_command (nircmd s) m d)
  ∨ (∃ key msg, a = StandardKey key msg)
  ∨ (∃ m, a = ModifierPress m ∧ m ∈ dom MODIFIER_MAP)
  ∨ a = Screenshot
  ∨ a = AudioDeviceToggle →
  ∃ s' r, call_action host_run host a s = (s', Ok (Returned r))
          ∧ modifier_inv s' ∧ mirrors_host s'.
Proof.
  intros Hinv Hmir [(command & msg & -> & [w Hw] & Hns)
                   |[(key & msg & ->)|[(m & -> & Hm)|[->| ->]]]];
    cbn [call_action].
  - unfold _create_simple_response, _execute_command.
    cbv beta iota delta [bind gets modify ret]. rewrite Hw.
    destruct (host_run (trace s) command); eexists _, _;
      (split; [reflexivity|]);
      (split; [by eapply inv_ext; [..|exact Hinv]|by apply emit_exec_mirrors]).
  - destruct (key_press_run_command host_run key msg s (inv_known s Hinv))
      as (keys & r & Hrun).
    destruct (run_op_preserves_inv host_run s (OpKeyPress key msg) Hinv I)
      as (s1 & Hop & Hinv1 & _).
    destruct (run_op_mirrors host_run s (OpKeyPress key msg) Hinv I Hmir)
      as (Hmir1 & _).
    rewrite Hop in Hmir1. cbn [fst] in Hmir1.
    cbn [run_op] in Hop. unfold bind, ret in Hop |- *. rewrite Hrun in Hop |- *.
    injection Hop as ->. by eexists _, _.
  - destruct (run_op_preserves_inv host_run s (OpToggle m) Hinv Hm)
      as (s1 & Hop & Hinv1 & _).
    destruct (run_op_mirrors host_run s (OpToggle m) Hinv Hm Hmir) as (Hmir1 & _).
    rewrite Hop in Hmir1. cbn [fst] in Hmir1.
    cbn [run_op] in Hop. unfold bind, ret in Hop |- *.
    rewrite (toggle_run host_run m s Hm) in Hop |- *.
    injection Hop as ->. by eexists _, _.
  - cbv beta iota delta [bind ret]. by eexists _, _.
  - unfold _toggle_audio_device.
    destruct (toggle_device host) as [name|msg];
      [|cbv beta iota delta [bind ret]; by eexists _, _].
    cbv beta iota zeta delta [bind gets ret].
    destruct (config_getattr (config s) "PLAYBACK_DEVICE_1") as [d1|];
      [|by eexists _, _].
    destruct (config_getattr (config s) _) as [target|]; [|by eexists _, _].
    unfold _execute_command. cbv beta iota delta [bind gets modify ret].
    destruct (host_run (trace s) _); eexists _, _; (split; [reflexivity|]);
      (split; [by eapply inv_ext; [..|exact Hinv]|]);
      (apply emit_exec_mirrors; [not_sendkey (nircmd s)|exact Hmir]).
Qed.

(** X15.  [handle_action] answers every action name with a JSON object.
    From a state that satisfies the invariant of the modifier state machine
    and agrees with the host, with [RECORDING_DEVICE_1] configured: no name
    makes it raise (the table passes only keys of [MODIFIER_MAP], and every
    command of the table has a first word), the state it leaves satisfies the
    invariant and agrees with the host again, a known name gets the mute state
    attached, and an unknown name gets "Invalid action" without it and leaves
    the object untouched. *)
Theorem handle_action_answers_every_name
    (host_run : list event → string → bool) (host : ActionHost)
    (action_name : string) (s : Self) (recording_1 : cfgval) :
  config_getattr (config s) "RECORDING_DEVICE_1" = Ok recording_1 →
  modifier_inv s → mirrors_host s →
  ∃ s' json,
    handle_action host_run host action_name s = (s', Ok (Returned json))
    ∧ modifier_inv s' ∧ mirrors_host s'
    ∧ match actions (nircmd s) (cfg_format recording_1) !! action_name with
      | Some _ => j_state json = Some (_get_mute_states (config s) (mute_probe host))
      | None => s' = s ∧ json = mkActionJson false "Invalid action" None None
      end.
Proof.
  intros Hrec Hinv Hmir. unfold handle_action.
  cbv beta iota delta [bind gets lift]. rewrite Hrec. cbv beta iota.
  destruct (actions (nircmd s) (cfg_format recording_1) !! action_name)
    as [a|] eqn:Ha.
  - destruct (call_action_ok host_run host a s Hinv Hmir
                (actions_classified _ _ _ _ Ha))
      as (s' & [[ok msg] mods] & Hcall & Hinv' & Hmir').
    rewrite Hcall. by eexists _, _.
  - by eexists _, _.
Qed.

Lemma handle_action_answers_every_name_witness :
  ∃ s' json,
    handle_action (fun _ _ => false)
      (mkActionHost 0 None (Failed "no device")
         (mkAudioProbe (Reply "HeadPhone (USB Audio)") true (Reply true) (Failed "x")))
      "media_next" self_alt_held = (s', Ok (Returned json))
    ∧ j_success json = false
    ∧ j_message json = "Failed to execute: " ++ dq ++ "C:\remote\static\nircmd.exe" ++ dq
    ∧ j_state json = Some (mkMuteStates true false true)
    ∧ modifier_inv s'.
Proof.
  destruct (handle_action_answers_every_name (fun _ _ => false)
              (mkActionHost 0 None (Failed "no device")
                 (mkAudioProbe (Reply "HeadPhone (USB Audio)") true (Reply true)
                    (Failed "x")))
              "media_next" self_alt_held (CStr "Microphone"))
    as (s' & json & Hrun & Hinv & _).
  - reflexivity.
  - exact self_alt_held_inv.
  - vm_compute. reflexivity.
  - exists s', json. split; [exact Hrun|].
    vm_compute in Hrun. injection Hrun as <- <-.
    split_and!; [reflexivity|reflexivity|reflexivity|exact Hinv].
Defined.

(** ** Audio device names *)

Lemma ascii_lower_space c :
  bool_decide (ascii_lower c = ascii_of_nat 32) = bool_decide (c = ascii_of_nat 32).
Proof. by destruct c as [[] [] [] [] [] [] [] []]. Qed.

Lemma str_lower_has_space s : str_has_space (str_lower s) = str_has_space s.
Proof.
  induction s as [|c s IH]; [done|].
  cbn [str_lower str_has_space]. by rewrite ascii_lower_space, IH.
Qed.

Lemma before_first_space_no_space s : str_has_space (before_first_space s) = false.
Proof.
  induction s as [|c s IH]; [done|]. cbn [before_first_space].
  destruct (bool_decide (c = ascii_of_nat 32)) eqn:Hc; [done|].
  cbn [str_has_space]. by rewrite Hc, IH.
Qed.

Lemma str_startswith_space p :
  ∀ s, str_startswith p s = true → str_has_space p = true → str_has_space s = true.
Proof.
  induction p as [|a p IH]; intros [|b s]; cbn [str_startswith str_has_space];
    try done.
  intros [Hab Hps]%andb_prop. apply bool_decide_eq_true in Hab as ->.
  intros [Hb|Hp]%orb_prop; apply orb_true_intro; [by left|right].
  by apply IH.
Qed.

Lemma str_contains_space needle hay :
  str_contains needle hay = true → str_has_space needle = true →
  str_has_space hay = true.
Proof.
  induction hay as [|c hay IH]; cbn [str_contains].
  - rewrite orb_false_r. apply str_startswith_space.
  - intros [H|H]%orb_prop Hn; [by eapply str_startswith_space|].
    cbn [str_has_space]. apply orb_true_intro. right. by apply IH.
Qed.

(** X16.  The output device is compared by its first word only, so a
    configured [PLAYBACK_DEVICE_2] that contains a space is never recognised:
    [_get_mute_states] reports [is_headphone_active] false whatever the host
    answers. *)
Theorem headphone_name_with_space_never_matches
    (cfg : Config) (probe : AudioProbe) (headphone_name : string) :
  config_getattr cfg "PLAYBACK_DEVICE_2" = Ok (CStr headphone_name) →
  str_has_space headphone_name = true →
  is_headphone_active (_get_mute_states cfg probe) = false.
Proof.
  intros Hcfg Hspace. unfold _get_mute_states. cbn [is_headphone_active].
  destruct (output_device probe) as [name|]; [|done]. rewrite Hcfg.
  destruct (str_contains _ _) eqn:Hc; [|done].
  apply str_contains_space in Hc; [|by rewrite str_lower_has_space].
  by rewrite str_lower_has_space, before_first_space_no_space in Hc.
Qed.

Lemma headphone_name_with_space_never_matches_witness :
  is_headphone_active
    (_get_mute_states
       (Config_init "b" "e" "Speakers" "Microphone"
          {[ "PLAYBACK_DEVICE_2" := CStr "USB Audio" ]})
       (mkAudioProbe (Reply "USB Audio Device") true (Reply false) (Reply false)))
  = false.
Proof.
  apply (headphone_name_with_space_never_matches _ _ "USB Audio"); reflexivity.
Defined.

(** The default name is found in a device name that starts with it,
    whatever the case. *)
Example headphone_default_matches :
  is_headphone_active
    (_get_mute_states (Config_init "b" "e" "Speakers" "Microphone" ∅)
       (mkAudioProbe (Reply "HEADPHONES (USB Audio)") true (Reply false) (Reply false)))
  = true.
Proof. reflexivity. Qed.


